(** * Table segmentation of [src/app.py]

    A shallow embedding of [extract_columns] and [process_extracted_table]
    (src/app.py, lines 151-203) and the properties of the row-scanning
    segmentation they implement.

    Python values are modelled by [cell]; a Python [dict] keyed by column
    index is a [gmap nat string], a row record is a [gmap string cell], the
    [set] of header names already seen is a [gset string].  Operations that
    can raise in Python ([row[i]], [d[k]], attribute access on [None]) return
    in the [result] monad, so that the absence of faults is a theorem and not
    an assumption of the model.

    The last two parts cover the pure logic around the segmentation in
    [main]: the parsing of the page selection and the widgets shown for one
    extracted table. *)

From stdpp Require Import gmap strings list fin_maps.

Local Open Scope string_scope.
Local Open Scope nat_scope.
Local Open Scope list_scope.

(** ** Values and rows *)

(** A cell of a DataFrame row: [None], a [str], or a non-text scalar (the
    code only ever asks a scalar whether it is a [str]; numbers stand for
    all of them). *)
Inductive cell :=
  | CNone
  | CStr (s : string)
  | CNum (n : Z).

#[global] Instance cell_eq_dec : EqDecision cell.
Proof. solve_decision. Defined.

(** Python truthiness of a cell ([if item ...]). *)
Definition truthy (item : cell) : bool :=
  match item with
  | CNone => false
  | CStr s => negb (String.eqb s "")
  | CNum n => negb (Z.eqb n 0)
  end.

(** [isinstance(item, str)] *)
Definition isinstance_str (item : cell) : bool :=
  match item with
  | CStr _ => true
  | _ => false
  end.

(** ** Exceptions *)

Inductive exn := IndexError | KeyError | AttributeError.

Inductive result (A : Type) :=
  | Ok (a : A)
  | Raise (e : exn).
Arguments Ok {A} a.
Arguments Raise {A} e.

#[global] Instance result_ret : MRet result := @Ok.
#[global] Instance result_bind : MBind result := λ A B f r,
  match r with
  | Ok a => f a
  | Raise e => Raise e
  end.

(** [row[i]] on a tuple, for [i >= 0]. *)
Definition getitem (row : list cell) (i : nat) : result cell :=
  match row !! i with
  | Some item => Ok item
  | None => Raise IndexError
  end.

(** [d[k]] on a dict. *)
Definition dict_getitem (d : gmap nat string) (k : nat) : result string :=
  match d !! k with
  | Some v => Ok v
  | None => Raise KeyError
  end.

(** ** String operations *)

(** [s.replace(" ", "")]: every U+0020 character is dropped, nothing else.
    Strings are UTF-8 byte sequences; the byte 32 only ever encodes U+0020. *)
Fixpoint replace_space (s : string) : string :=
  match s with
  | EmptyString => EmptyString
  | String c s' =>
      if Ascii.eqb c Ascii.Space then replace_space s'
      else String c (replace_space s')
  end.

(** [txt in s] on strings: [txt] occurs in [s] as a contiguous substring. *)
Fixpoint str_contains (txt s : string) : bool :=
  if String.prefix txt s then true
  else match s with
       | EmptyString => false
       | String _ s' => str_contains txt s'
       end.

(** [x in [l0, l1, ...]] on a list of strings. *)
Definition str_in_list (x : string) (l : list string) : bool :=
  existsb (String.eqb x) l.

(** [any(txt in s for txt in lits)] *)
Definition any_in (lits : list string) (s : string) : bool :=
  existsb (λ txt, str_contains txt s) lits.

Definition trigger_literals : list string := ["반영여부"; "적합여부"].
Definition accept_literals : list string :=
  ["반영"; "부분반영"; "권고"; "적합"; "조건부적합"].
Definition reject_literals : list string :=
  ["미반영"; "해당없음"; "해당사항 없음"].

(** ** The table model (class [Table]) *)

Record Table := mkTable {
  columns : gmap nat string;
  rows : list (gmap string cell);
  target_index : nat
}.

#[global] Instance Table_eq_dec : EqDecision Table.
Proof. solve_decision. Defined.

(** ** [extract_columns] *)

(** The body of [for idx, item in enumerate(row)], from position [idx] on,
    with the two accumulators of the source. *)
Fixpoint extract_columns_from (idx : nat) (items : list cell)
    (columns : gmap nat string) (recent_columns : gset string)
    : gmap nat string :=
  match items with
  | [] => columns
  | item :: rest =>
      match item with
      | CStr s =>
          if bool_decide (s ∉ recent_columns)
          then extract_columns_from (S idx) rest
                 (<[idx := s]> columns) ({[s]} ∪ recent_columns)
          else extract_columns_from (S idx) rest columns recent_columns
      | _ => extract_columns_from (S idx) rest columns recent_columns
      end
  end.

Definition extract_columns (row : list cell) : gmap nat string :=
  extract_columns_from 0 row ∅ ∅.

(** ** [process_extracted_table] *)

(** The trigger test of the inactive branch:
    [item and isinstance(item, str)] and then
    [item.replace(" ", "") in ["반영여부", "적합여부"]]. *)
Definition is_trigger_cell (item : cell) : bool :=
  truthy item && isinstance_str item &&
  match item with
  | CStr s => str_in_list (replace_space s) trigger_literals
  | _ => false
  end.

(** The inner [for index, item in enumerate(row)] with its [break]: the
    index of the first trigger cell, counting from [index]. *)
Fixpoint scan_trigger (index : nat) (items : list cell) : option nat :=
  match items with
  | [] => None
  | item :: rest =>
      if is_trigger_cell item then Some index
      else scan_trigger (S index) rest
  end.

(** Truthiness of [columns.get(index, None)]. *)
Definition truthy_get (columns : gmap nat string) (index : nat) : bool :=
  match columns !! index with
  | Some h => negb (String.eqb h "")
  | None => false
  end.

(** The loop that fills [curr_row], from position [index] on. *)
Fixpoint build_row_from (columns : gmap nat string) (index : nat)
    (items : list cell) (curr_row : gmap string cell)
    : result (gmap string cell) :=
  match items with
  | [] => Ok curr_row
  | item :: rest =>
      if truthy_get columns index then
        h ← dict_getitem columns index;
        build_row_from columns (S index) rest (<[h := item]> curr_row)
      else build_row_from columns (S index) rest curr_row
  end.

Definition build_row (columns : gmap nat string) (row : list cell)
    : result (gmap string cell) :=
  build_row_from columns 0 row ∅.

(** The three local variables of [process_extracted_table]. *)
Record loop_state := mkState {
  table_detected : bool;
  curr_table : option Table;
  extracted_tables : list Table
}.

Definition init_state : loop_state := mkState false None [].

(** Attribute access on [curr_table], which may be [None]. *)
Definition deref (o : option Table) : result Table :=
  match o with
  | Some t => Ok t
  | None => Raise AttributeError
  end.

(** [row[curr_table.target_index] if curr_table.target_index < len(row) else ""] *)
Definition read_target (t : Table) (row : list cell) : result cell :=
  if target_index t <? length row then getitem row (target_index t)
  else Ok (CStr "").

(** One iteration of [for row in df.itertuples()]. *)
Definition loop_body (st : loop_state) (row : list cell) : result loop_state :=
  if negb (table_detected st) then
    match scan_trigger 0 row with
    | Some index =>
        Ok (mkState true
              (Some (mkTable (extract_columns row) [] index))
              (extracted_tables st))
    | None => Ok st
    end
  else
    t ← deref (curr_table st);
    target_value ← read_target t row;
    match target_value with
    | CStr s =>
        if any_in accept_literals s then
          curr_row ← build_row (columns t) row;
          Ok (mkState (table_detected st)
                (Some (mkTable (columns t) (rows t ++ [curr_row]) (target_index t)))
                (extracted_tables st))
        else if any_in reject_literals s then Ok st
        else Ok (mkState false None (extracted_tables st ++ [t]))
    | _ => Ok st
    end.

Fixpoint run_loop (st : loop_state) (rws : list (list cell)) : result loop_state :=
  match rws with
  | [] => Ok st
  | row :: rest => st' ← loop_body st row; run_loop st' rest
  end.

(** [if curr_table: extracted_tables.append(curr_table)]; a [Table] object
    is always truthy. *)
Definition flush (st : loop_state) : list Table :=
  match curr_table st with
  | Some t => extracted_tables st ++ [t]
  | None => extracted_tables st
  end.

(** The function on the sequence of tuples that the loop iterates over. *)
Definition process_rows (rws : list (list cell)) : result (list Table) :=
  st ← run_loop init_state rws; Ok (flush st).

(** A DataFrame: each row carries its index label and its cells;
    [itertuples()] yields the label followed by the cells. *)
Definition DataFrame := list (cell * list cell).

Definition itertuples (df : DataFrame) : list (list cell) :=
  map (λ p, p.1 :: p.2) df.

(** The default [RangeIndex] frame over a list of rows. *)
Definition range_frame (rws : list (list cell)) : DataFrame :=
  imap (λ i r, (CNum (Z.of_nat i), r)) rws.

Definition process_extracted_table (df : DataFrame) : result (list Table) :=
  process_rows (itertuples df).

(** * Predicates and inputs used in the statements *)

(** ** Reachable states *)

(** The flag and the current table agree. *)
Definition consistent (st : loop_state) : Prop :=
  table_detected st = true ↔ is_Some (curr_table st).

(** [rec] is the projection of a row already read whose target cell holds an
    accepted text. *)
Definition accepted_record (seen : list (list cell)) (t : Table)
    (rec : gmap string cell) : Prop :=
  ∃ row s, row ∈ seen ∧ build_row (columns t) row = Ok rec ∧
           row !! target_index t = Some (CStr s) ∧
           any_in accept_literals s = true.

(** [t] was created from a trigger row already read, and holds accepted
    records only. *)
Definition table_ok (seen : list (list cell)) (t : Table) : Prop :=
  (∃ trow, trow ∈ seen ∧ columns t = extract_columns trow ∧
           scan_trigger 0 trow = Some (target_index t)) ∧
  ∀ rec, rec ∈ rows t → accepted_record seen t rec.

Definition state_ok (seen : list (list cell)) (st : loop_state) : Prop :=
  consistent st ∧
  (∀ t, t ∈ extracted_tables st → table_ok seen t) ∧
  (∀ t, curr_table st = Some t → table_ok seen t).

(** ** Trigger rows *)

(** A text whose form without U+0020 characters is a trigger literal. *)
Definition trigger_text (item : cell) : Prop :=
  ∃ s, item = CStr s ∧ replace_space s ∈ trigger_literals.

(** Column [i] holds the first trigger text of [row]. *)
Definition first_trigger (row : list cell) (i : nat) : Prop :=
  (∃ c, row !! i = Some c ∧ trigger_text c) ∧
  ∀ j c, j < i → row !! j = Some c → ¬ trigger_text c.

(** The state entered when [row] triggers at column [index]. *)
Definition started (st : loop_state) (row : list cell) (index : nat) : loop_state :=
  mkState true (Some (mkTable (extract_columns row) [] index))
    (extracted_tables st).

(** The state after closing table [t]. *)
Definition closed (st : loop_state) (t : Table) : loop_state :=
  mkState false None (extracted_tables st ++ [t]).

(** The state after appending [rec] to the active table [t]. *)
Definition appended (st : loop_state) (t : Table) (rec : gmap string cell)
    : loop_state :=
  mkState true
    (Some (mkTable (columns t) (rows t ++ [rec]) (target_index t)))
    (extracted_tables st).

(** ** The behaviour as the specification words it, for comparison *)

(** Whitespace characters: space, tab, line feed, vertical tab, form feed,
    carriage return. *)
Definition is_whitespace (c : Ascii.ascii) : bool :=
  let n := Ascii.nat_of_ascii c in
  (n =? 32) || ((9 <=? n) && (n <=? 13)).

(** "after removing all whitespace characters" *)
Fixpoint remove_whitespace (s : string) : string :=
  match s with
  | EmptyString => EmptyString
  | String c s' =>
      if is_whitespace c then remove_whitespace s'
      else String c (remove_whitespace s')
  end.

(** "a text value that, after removing all whitespace characters, exactly
    equals one of the two trigger literals" *)
Definition spec_trigger_cell (item : cell) : bool :=
  match item with
  | CStr s => str_in_list (remove_whitespace s) trigger_literals
  | _ => false
  end.

(** "close the current table ... and re-process this same row under the
    inactive-state trigger-detection rule" *)
Definition spec_terminate_rescan (st : loop_state) (t : Table)
    (row : list cell) : result loop_state :=
  loop_body (closed st t) row.

(** "project every cell whose column index is present in the ColumnMap into
    header → value", and no other entries. *)
Definition projects_all_keys (cols : gmap nat string) (row : list cell)
    (rec : gmap string cell) : Prop :=
  ∀ h v, rec !! h = Some v ↔ ∃ i, cols !! i = Some h ∧ row !! i = Some v.

(** ** Concrete inputs *)

Definition tab_char : string := String (Ascii.ascii_of_nat 9) EmptyString.

(** Scenario A of the specification. *)
Definition scenarioA : list (list cell) :=
  [ [CStr ""; CStr "적합여부"; CStr ""; CStr "비고"];
    [CStr "X"; CStr "적합"; CStr ""; CStr "ok"];
    [CStr "Y"; CStr "미반영"; CStr ""; CStr "n/a"];
    [CStr "Z"; CStr "보류"; CStr ""; CStr "stop"] ].

Definition recordX : gmap string cell :=
  {[ "적합여부" := CStr "적합"; "비고" := CStr "ok" ]}.

Definition recordZ : gmap string cell :=
  {[ "적합여부" := CStr "보류"; "비고" := CStr "stop" ]}.

(** The table Scenario A expects. *)
Definition expectedA : Table :=
  mkTable {[ 1 := "적합여부"; 3 := "비고" ]} [recordX] 1.

Definition columnsA : gmap nat string :=
  {[ 0 := ""; 1 := "적합여부"; 3 := "비고" ]}.

(** A frame whose second row ends the table and holds a trigger cell. *)
Definition frame_rescan : DataFrame :=
  range_frame [ [CStr "적합여부"; CStr "x"];
                [CStr "보류"; CStr "반영여부"];
                [CStr "a"; CStr "반영"] ].

Definition table_rescan : Table :=
  mkTable {[ 1 := "적합여부"; 2 := "x" ]} [] 1.

Definition state_rescan : loop_state := mkState true (Some table_rescan) [].

Definition row_rescan : list cell := [CNum 1; CStr "보류"; CStr "반영여부"].

(** A frame with a number in the target column of its second row. *)
Definition frame_numeric : DataFrame :=
  range_frame [ [CStr "적합여부"]; [CNum 5]; [CStr "적합"] ].

Definition table_numeric : Table := mkTable {[ 1 := "적합여부" ]} [] 1.

Definition state_numeric : loop_state := mkState true (Some table_numeric) [].

Definition table_numeric_out : Table :=
  mkTable {[ 1 := "적합여부" ]} [ {[ "적합여부" := CStr "적합" ]} ] 1.

Definition row_numeric : list cell := [CNum 1; CNum 5].

(** A frame whose trigger row starts with an empty text. *)
Definition frame_blank : DataFrame :=
  range_frame [ [CStr ""; CStr "적합여부"]; [CStr "X"; CStr "적합"] ].

Definition table_blank : Table :=
  mkTable {[ 1 := ""; 2 := "적합여부" ]} [] 2.

Definition state_blank : loop_state := mkState true (Some table_blank) [].

Definition row_blank : list cell := [CNum 1; CStr "X"; CStr "적합"].

Definition record_blank : gmap string cell := {[ "적합여부" := CStr "적합" ]}.

(** A trigger text written with a tab inside. *)
Definition tabbed_trigger : cell := CStr ("반영" +:+ tab_char +:+ "여부").

Definition frame_tabbed : DataFrame := range_frame [ [tabbed_trigger] ].

(** A trigger row with a repeated header. *)
Definition row_repeated : list cell :=
  [CNum 0; CStr "구분"; CStr "적합여부"; CStr "구분"; CNone; CStr "비고"].

(** ** The page selection of [main] (src/app.py, lines 271-288) *)

(** [s.split(sep)] for a separator of one character. *)
Fixpoint split_on (sep : Ascii.ascii) (s : string) : list string :=
  match s with
  | EmptyString => [EmptyString]
  | String c s' =>
      if Ascii.eqb c sep then EmptyString :: split_on sep s'
      else match split_on sep s' with
           | [] => [String c EmptyString]
           | p :: ps => String c p :: ps
           end
  end.

Definition comma : Ascii.ascii := Ascii.ascii_of_nat 44.
Definition dash : Ascii.ascii := Ascii.ascii_of_nat 45.

(** [range(start, stop)] *)
Definition py_range (start stop : Z) : list Z := seqZ start (stop - start).

(** The body of the [for part in ...] loop.  Python's [int] and
    [str.strip] are parameters: [py_int s] is [None] where [int(s)] raises.
    The result is the list of pages the part adds, [None] where the body
    raises (a failing [int], or an unpacking of other than two items). *)
Definition parse_part (py_int : string → option Z) (py_strip : string → string)
    (part : string) : option (list Z) :=
  if str_contains "-" part then
    match split_on dash part with
    | [a; b] =>
        match py_int a, py_int b with
        | Some start, Some stop => Some (py_range start (stop + 1))
        | _, _ => None
        end
    | _ => None
    end
  else
    match py_int (py_strip part) with
    | Some n => Some [n]
    | None => None
    end.

(** The [for] loop inside [try]: the pages collected, and whether the
    [except] branch ran ([st.error("Invalid page format")]). *)
Fixpoint parse_parts (py_int : string → option Z) (py_strip : string → string)
    (parts : list string) (pages : list Z) : list Z * bool :=
  match parts with
  | [] => (pages, false)
  | part :: rest =>
      match parse_part py_int py_strip part with
      | Some ps => parse_parts py_int py_strip rest (pages ++ ps)
      | None => (pages, true)
      end
  end.

(** The value of [pages] after the block, for the "Specific pages" option,
    and whether the error message was shown. *)
Definition parse_pages (py_int : string → option Z) (py_strip : string → string)
    (page_input : string) : option (list Z) * bool :=
  match page_input with
  | EmptyString => (None, false)
  | _ =>
      let '(pages, err) :=
        parse_parts py_int py_strip (split_on comma page_input) [] in
      (Some pages, err)
  end.

(** [pages if pages else None], the argument given to [PDF(...)] in
    [extract_tables_from_pdf]; [None] selects every page. *)
Definition pages_argument (pages : option (list Z)) : option (list Z) :=
  match pages with
  | Some (p :: ps) => Some (p :: ps)
  | _ => None
  end.

(** An instance of the parameters for the examples: decimal ASCII digits,
    and no stripping. *)
Definition digit_value (c : Ascii.ascii) : option Z :=
  let n := Ascii.nat_of_ascii c in
  if (48 <=? n) && (n <=? 57) then Some (Z.of_nat (n - 48)) else None.

Fixpoint digits_value (s : string) (acc : Z) : option Z :=
  match s with
  | EmptyString => Some acc
  | String c s' =>
      match digit_value c with
      | Some d => digits_value s' (10 * acc + d)%Z
      | None => None
      end
  end.

Definition digits_int (s : string) : option Z :=
  match s with
  | EmptyString => None
  | _ => digits_value s 0
  end.

Definition no_strip (s : string) : string := s.

(** ** The display of one extracted table in [main] (lines 438-471) *)

(** The calls made on the page, in order.  The frames and the CSV data are
    recorded as the values they are built from; a file name
    [table_p{page_num}_{idx+1}_filtered_{pt_idx+1}.csv] or
    [table_page{page_num}_{idx+1}.csv] is recorded as its numbers. *)
Inductive widget :=
  | Dataframe_records (recs : list (gmap string cell))
  | Dataframe_raw (df : DataFrame)
  | Download_filtered (page_num table_no part_no : nat)
  | Download_raw (page_num table_no : nat)
  | Info_no_match
  | Error_displaying (e : exn).

(** The body of [for pt_idx, pt in enumerate(processed_tables)], from
    position [pt_idx] on. *)
Fixpoint show_processed (page_num idx pt_idx : nat) (pts : list Table)
    : list widget :=
  match pts with
  | [] => []
  | pt :: rest =>
      match rows pt with
      | [] => show_processed page_num idx (S pt_idx) rest
      | _ :: _ =>
          Dataframe_records (rows pt) ::
          Download_filtered page_num (idx + 1) (pt_idx + 1) ::
          show_processed page_num idx (S pt_idx) rest
      end
  end.

(** The body of the [try] for the table at position [idx] of page
    [page_num], whose frame is [df]. *)
Definition show_table (apply_korean_filter : bool) (page_num idx : nat)
    (df : DataFrame) : list widget :=
  if apply_korean_filter then
    match process_extracted_table df with
    | Ok [] => [Info_no_match; Dataframe_raw df]
    | Ok processed_tables => show_processed page_num idx 0 processed_tables
    | Raise e => [Error_displaying e]
    end
  else [Dataframe_raw df; Download_raw page_num (idx + 1)].


(** ** Vocabulary of the further properties *)

(** What the active branch does with a row, given the target index: the
    conditions of the [if]/[elif]/[else] chain, a non-text target value
    falling through the whole block. *)
Inductive action := Keep | Skip | Terminate.

#[global] Instance action_eq_dec : EqDecision action.
Proof. solve_decision. Defined.

Definition classify (index : nat) (row : list cell) : action :=
  match default (CStr "") (row !! index) with
  | CStr s =>
      if any_in accept_literals s then Keep
      else if any_in reject_literals s then Skip
      else Terminate
  | _ => Skip
  end.

(** The record [build_row] returns. *)
Definition record_of (cols : gmap nat string) (row : list cell)
    : gmap string cell :=
  match build_row cols row with
  | Ok rec => rec
  | Raise _ => ∅
  end.

(** The records of the rows of [body] that are kept, in order. *)
Definition kept_records (cols : gmap nat string) (index : nat)
    (body : list (list cell)) : list (gmap string cell) :=
  omap (λ row, if decide (classify index row = Keep)
               then Some (record_of cols row) else None) body.

(** The state [st] with [pre] in front of its closed tables. *)
Definition shift (pre : list Table) (st : loop_state) : loop_state :=
  mkState (table_detected st) (curr_table st) (pre ++ extracted_tables st).

(** Number of row records held by a list of tables. *)
Definition records_total (ts : list Table) : nat :=
  sum_list (map (λ t, length (rows t)) ts).

(** Rows consumed by the tables of a state: two per closed table (trigger
    and terminator), one for the active table, one per record. *)
Definition weight (st : loop_state) : nat :=
  records_total (extracted_tables st) + 2 * length (extracted_tables st) +
  match curr_table st with
  | Some t => length (rows t) + 1
  | None => 0
  end.

(** A state that will yield at least one table. *)
Definition productive (st : loop_state) : Prop :=
  extracted_tables st ≠ [] ∨ is_Some (curr_table st).

(** No cell of the row is a trigger. *)
Definition trigger_free (row : list cell) : Prop :=
  ∀ c, c ∈ row → is_trigger_cell c = false.

(** The accept and reject literals that decide the tests: the others
    contain one of these. *)
Definition accept_core : list string := ["반영"; "권고"; "적합"].
Definition reject_core : list string := ["해당없음"; "해당사항 없음"].

(** * Properties *)

(** ** The [result] monad *)

Lemma bind_Ok_inv {A B} (f : A → result B) (r : result A) (b : B) :
  (r ≫= f) = Ok b → ∃ a, r = Ok a ∧ f a = Ok b.
Proof. destruct r as [a|e]; [eauto | discriminate]. Qed.

Lemma run_loop_app st rws1 rws2 :
  run_loop st (rws1 ++ rws2) = (run_loop st rws1 ≫= λ st', run_loop st' rws2).
Proof.
  revert st. induction rws1 as [|row rest IH]; intros st; simpl; [done|].
  destruct (loop_body st row) as [st'|e]; simpl; [apply IH | done].
Qed.

Lemma run_loop_snoc st rws row :
  run_loop st (rws ++ [row]) = (run_loop st rws ≫= λ st', loop_body st' row).
Proof.
  rewrite run_loop_app. destruct (run_loop st rws) as [st'|e]; simpl; [|done].
  by destruct (loop_body st' row).
Qed.

(** ** Strings: [in] is substring containment *)

Lemma append_String c s1 s2 : String c s1 +:+ s2 = String c (s1 +:+ s2).
Proof. reflexivity. Qed.

Lemma append_empty s : "" +:+ s = s.
Proof. reflexivity. Qed.

Lemma prefix_spec txt s :
  String.prefix txt s = true ↔ ∃ post, s = txt +:+ post.
Proof.
  revert s. induction txt as [|a txt IH]; intros s; simpl.
  - destruct s; split; eauto.
  - destruct s as [|b s]; simpl.
    + split; [done | intros [post H]; discriminate].
    + destruct (Ascii.ascii_dec a b) as [->|Hne].
      * rewrite IH. split; intros [post H]; exists post;
          rewrite ?append_String in *; congruence.
      * split; [done | intros [post H]; rewrite append_String in H; congruence].
Qed.

Lemma str_contains_unfold txt s :
  str_contains txt s =
  if String.prefix txt s then true
  else match s with
       | EmptyString => false
       | String _ s' => str_contains txt s'
       end.
Proof. by destruct s. Qed.

Lemma str_contains_spec txt s :
  str_contains txt s = true ↔ ∃ pre post, s = pre +:+ txt +:+ post.
Proof.
  induction s as [|c s IH]; rewrite str_contains_unfold.
  - destruct (String.prefix txt "") eqn:Hp.
    + apply prefix_spec in Hp as [post Hp]. split; [|done].
      intros _. by exists "", post.
    + split; [done|]. intros ([|? pre] & post & H); [|discriminate].
      rewrite append_empty in H. assert (String.prefix txt "" = true); [|congruence].
      apply prefix_spec. eauto.
  - destruct (String.prefix txt (String c s)) eqn:Hp.
    + apply prefix_spec in Hp as [post Hp]. split; [|done].
      intros _. by exists "", post.
    + rewrite IH. split.
      * intros (pre & post & ->). by exists (String c pre), post.
      * intros ([|c' pre] & post & H);
          rewrite ?append_empty, ?append_String in H.
        -- assert (String.prefix txt (String c s) = true); [|congruence].
           apply prefix_spec. eauto.
        -- injection H as -> ->. eauto.
Qed.

Lemma str_in_list_spec x l : str_in_list x l = true ↔ x ∈ l.
Proof.
  unfold str_in_list. rewrite existsb_exists. setoid_rewrite String.eqb_eq.
  setoid_rewrite <- list_elem_of_In.
  split; [by intros (y & Hy & ->) | eauto].
Qed.

Lemma any_in_spec lits s :
  any_in lits s = true ↔ ∃ txt, txt ∈ lits ∧ str_contains txt s = true.
Proof.
  unfold any_in. rewrite existsb_exists.
  by setoid_rewrite <- list_elem_of_In.
Qed.

(** ** Trigger detection *)

Lemma replace_space_trigger_nonempty s :
  replace_space s ∈ trigger_literals → s ≠ "".
Proof.
  intros H ->. simpl in H. apply str_in_list_spec in H. discriminate.
Qed.

Lemma is_trigger_cell_spec item :
  is_trigger_cell item = true ↔
  ∃ s, item = CStr s ∧ replace_space s ∈ trigger_literals.
Proof.
  unfold is_trigger_cell, truthy, isinstance_str.
  destruct item as [|s|n]; cbv beta iota.
  - split; [done | by intros (s & ? & _)].
  - rewrite andb_true_r, andb_true_iff, negb_true_iff, str_in_list_spec.
    split.
    + intros [_ H]. eauto.
    + intros (s' & [= <-] & H). split; [|done].
      apply String.eqb_neq. by apply replace_space_trigger_nonempty.
  - rewrite andb_false_r. split; [done | by intros (s & ? & _)].
Qed.

Lemma scan_trigger_Some items : ∀ idx i,
  scan_trigger idx items = Some i ↔
  ∃ k, i = idx + k ∧
       (∃ c, items !! k = Some c ∧ is_trigger_cell c = true) ∧
       ∀ j c, j < k → items !! j = Some c → is_trigger_cell c = false.
Proof.
  induction items as [|item rest IH]; intros idx i; simpl.
  - split; [done | by intros (k & _ & (c & H & _) & _)].
  - destruct (is_trigger_cell item) eqn:Ht.
    + split.
      * intros [= <-]. exists 0. split; [lia|]. split; [eauto | intros; lia].
      * intros (k & -> & (c & Hc & Hct) & Hlt). destruct k as [|k].
        -- f_equal. lia.
        -- specialize (Hlt 0 item ltac:(lia) eq_refl). congruence.
    + rewrite IH. split.
      * intros (k & -> & Hc & Hlt). exists (S k). split; [lia|]. split; [done|].
        intros [|j] c Hj Hjc; simpl in Hjc; [congruence|].
        apply (Hlt j); [lia | done].
      * intros (k & -> & (c & Hc & Hct) & Hlt). destruct k as [|k].
        -- simpl in Hc. congruence.
        -- exists k. split; [lia|]. split; [eauto|].
           intros j c' Hj Hjc. apply (Hlt (S j)); [lia | done].
Qed.

Lemma scan_trigger_None items : ∀ idx,
  scan_trigger idx items = None ↔
  ∀ c, c ∈ items → is_trigger_cell c = false.
Proof.
  induction items as [|item rest IH]; intros idx; simpl.
  - split; [intros _ c Hc; by apply elem_of_nil in Hc | done].
  - destruct (is_trigger_cell item) eqn:Ht.
    + split; [done|]. intros H. specialize (H item ltac:(left)). congruence.
    + rewrite IH. split.
      * intros H c [->|Hc]%elem_of_cons; auto.
      * intros H c Hc. apply H. by right.
Qed.

(** ** [extract_columns]: first occurrence wins *)

Lemma extract_columns_from_lookup items : ∀ idx cols recent i s,
  (∀ j, idx ≤ j → cols !! j = None) →
  extract_columns_from idx items cols recent !! i = Some s ↔
  (cols !! i = Some s ∨
   ∃ k, i = idx + k ∧ items !! k = Some (CStr s) ∧ (s ∉ recent) ∧
        ∀ j, j < k → items !! j ≠ Some (CStr s)).
Proof.
  induction items as [|item rest IH]; intros idx cols recent i s Hfresh; simpl.
  - split; [by left | intros [H | (k & _ & H & _)]; done].
  - assert (∀ x, (∃ k, i = S idx + k ∧ rest !! k = Some (CStr s) ∧ x ∧
                     ∀ j, j < k → rest !! j ≠ Some (CStr s)) →
                 item ≠ CStr s →
                 ∃ k, i = idx + k ∧ (item :: rest) !! k = Some (CStr s) ∧ x ∧
                     ∀ j, j < k → (item :: rest) !! j ≠ Some (CStr s)) as Hshift.
    { intros x (k & -> & Hk & Hx & Hlt) Hne. exists (S k).
      split; [lia|]. split; [done|]. split; [done|].
      intros [|j] Hj; simpl; [congruence | apply Hlt; lia]. }
    destruct item as [|s0|n].
    + rewrite IH by (intros j Hj; apply Hfresh; lia). split.
      * intros [H | H]; [by left | right; by apply Hshift].
      * intros [H | (k & -> & Hk & Hx & Hlt)]; [by left | right].
        destruct k as [|k]; [done|]. exists k. split; [lia|].
        split; [done|]. split; [done|]. intros j Hj. apply (Hlt (S j)). lia.
    + case_bool_decide as Hin.
      * rewrite IH.
        2:{ intros j Hj. rewrite lookup_insert_ne by lia. apply Hfresh. lia. }
        split.
        -- intros [H | H].
           ++ destruct (decide (idx = i)) as [<-|Hne].
              ** rewrite lookup_insert_eq in H. injection H as <-. right.
                 exists 0. split; [lia|]. split; [done|]. split; [done|].
                 intros; lia.
              ** rewrite lookup_insert_ne in H by done. by left.
           ++ right. destruct H as (k & -> & Hk & Hx & Hlt).
              exists (S k). split; [lia|]. split; [done|].
              split; [intros ?; apply Hx, elem_of_union; by right|].
              intros [|j] Hj; simpl; [|apply Hlt; lia].
              intros [= ->]. apply Hx, elem_of_union. left.
              by apply elem_of_singleton.
        -- intros [H | (k & -> & Hk & Hx & Hlt)].
           ++ left. rewrite lookup_insert_ne; [done|].
              intros <-. rewrite Hfresh in H by lia. done.
           ++ destruct k as [|k].
              ** injection Hk as ->. left.
                 replace (idx + 0) with idx by lia. apply lookup_insert_eq.
              ** right. exists k. split; [lia|]. split; [done|]. split.
                 --- specialize (Hlt 0 ltac:(lia)). simpl in Hlt.
                     intros [->%elem_of_singleton | ?]%elem_of_union; done.
                 --- intros j Hj. apply (Hlt (S j)). lia.
      * rewrite IH by (intros j Hj; apply Hfresh; lia). split.
        -- intros [H | H]; [by left | right]. apply Hshift; [done|].
           destruct H as (k & _ & _ & Hx & _). intros [= ->]. done.
        -- intros [H | (k & -> & Hk & Hx & Hlt)]; [by left | right].
           destruct k as [|k]; [injection Hk as ->; done|].
           exists k. split; [lia|].
           split; [done|]. split; [done|]. intros j Hj. apply (Hlt (S j)). lia.
    + rewrite IH by (intros j Hj; apply Hfresh; lia). split.
      * intros [H | H]; [by left | right; by apply Hshift].
      * intros [H | (k & -> & Hk & Hx & Hlt)]; [by left | right].
        destruct k as [|k]; [done|]. exists k. split; [lia|].
        split; [done|]. split; [done|]. intros j Hj. apply (Hlt (S j)). lia.
Qed.

Lemma extract_columns_lookup row i s :
  extract_columns row !! i = Some s ↔
  row !! i = Some (CStr s) ∧ ∀ j, j < i → row !! j ≠ Some (CStr s).
Proof.
  unfold extract_columns. rewrite extract_columns_from_lookup by done.
  rewrite lookup_empty. split.
  - intros [H | (k & -> & Hk & _ & Hlt)]; [done|]. done.
  - intros [Hi Hlt]. right. exists i. split; [done|]. split; [done|].
    split; [apply not_elem_of_empty | done].
Qed.

Lemma extract_columns_inj row i j s :
  extract_columns row !! i = Some s →
  extract_columns row !! j = Some s → i = j.
Proof.
  rewrite !extract_columns_lookup. intros [Hi Hil] [Hj Hjl].
  destruct (lt_eq_lt_dec i j) as [[Hlt | ->] | Hlt]; [|done|].
  - by apply Hjl in Hlt.
  - by apply Hil in Hlt.
Qed.

(** ** Building a row record *)

Lemma build_row_from_total cols items : ∀ idx acc,
  ∃ rec, build_row_from cols idx items acc = Ok rec.
Proof.
  induction items as [|item rest IH]; intros idx acc; simpl; [eauto|].
  unfold truthy_get, dict_getitem. destruct (cols !! idx) as [h|]; [|apply IH].
  destruct (negb (h =? ""))%string; apply IH.
Qed.

Lemma build_row_total cols row : ∃ rec, build_row cols row = Ok rec.
Proof. apply build_row_from_total. Qed.

Section build_row_unique.
Variable cols : gmap nat string.
Hypothesis cols_inj :
  ∀ i j h, cols !! i = Some h → cols !! j = Some h → i = j.

Lemma build_row_from_lookup items : ∀ idx acc rec,
  build_row_from cols idx items acc = Ok rec →
  ∀ h v, rec !! h = Some v ↔
    ((∃ k, items !! k = Some v ∧ cols !! (idx + k) = Some h ∧ h ≠ "") ∨
     (acc !! h = Some v ∧
      (h = "" ∨ ∀ k, k < length items → cols !! (idx + k) ≠ Some h))).
Proof.
  induction items as [|item rest IH]; intros idx acc rec Hrun h v;
    simpl in Hrun.
  - injection Hrun as <-. split.
    + intros H. right. split; [done|]. right. simpl. intros; lia.
    + intros [(k & Hk & _) | [H _]]; done.
  - unfold truthy_get, dict_getitem in Hrun.
    destruct (cols !! idx) as [h0|] eqn:Hidx;
      [destruct (String.eqb_spec h0 "") as [->|Hne0]|]; simpl in Hrun.
    + (* header is the empty string: the cell is not projected *)
      rewrite (IH _ _ _ Hrun). split.
      * intros [(k & Hk & Hc & Hne) | [Hacc Hno]].
        -- left. exists (S k). by rewrite Nat.add_succ_r.
        -- right. split; [done|].
           destruct (decide (h = "")) as [->|Hne]; [by left | right].
           destruct Hno as [->|Hno]; [done|]. intros [|k] Hk.
           ++ rewrite Nat.add_0_r, Hidx. congruence.
           ++ rewrite Nat.add_succ_r. apply Hno. simpl in Hk. lia.
      * intros [(k & Hk & Hc & Hne) | [Hacc Hno]].
        -- destruct k as [|k].
           ++ rewrite Nat.add_0_r, Hidx in Hc. congruence.
           ++ left. exists k. by rewrite Nat.add_succ_r in Hc.
        -- right. split; [done|]. destruct Hno as [->|Hno]; [by left|].
           right. intros k Hk. specialize (Hno (S k)).
           rewrite Nat.add_succ_r in Hno. apply Hno. simpl. lia.
    + (* non-empty header: the cell is stored under it *)
      rewrite (IH _ _ _ Hrun). split.
      * intros [(k & Hk & Hc & Hne) | [Hacc Hno]].
        -- left. exists (S k). by rewrite Nat.add_succ_r.
        -- destruct (decide (h0 = h)) as [<-|Hne].
           ++ rewrite lookup_insert_eq in Hacc. injection Hacc as <-.
              left. exists 0. by rewrite Nat.add_0_r.
           ++ rewrite lookup_insert_ne in Hacc by done.
              right. split; [done|]. destruct Hno as [->|Hno]; [by left|].
              right. intros [|k] Hk.
              ** rewrite Nat.add_0_r, Hidx. congruence.
              ** rewrite Nat.add_succ_r. apply Hno. simpl in Hk. lia.
      * intros [(k & Hk & Hc & Hne) | [Hacc Hno]].
        -- destruct k as [|k].
           ++ rewrite Nat.add_0_r, Hidx in Hc.
              injection Hc as <-. injection Hk as <-. right.
              split; [apply lookup_insert_eq|]. right. intros k Hk Hc.
              specialize (cols_inj _ _ _ Hidx Hc). lia.
           ++ left. exists k. by rewrite Nat.add_succ_r in Hc.
        -- assert (h0 ≠ h) as Hne.
           { intros <-. destruct Hno as [->|Hno]; [done|].
             apply (Hno 0); [simpl; lia|]. by rewrite Nat.add_0_r. }
           right. rewrite lookup_insert_ne by done. split; [done|].
           destruct Hno as [->|Hno]; [by left|].
           right. intros k Hk. specialize (Hno (S k)).
           rewrite Nat.add_succ_r in Hno. apply Hno. simpl. lia.
    + (* no header at this index *)
      rewrite (IH _ _ _ Hrun). split.
      * intros [(k & Hk & Hc & Hne) | [Hacc Hno]].
        -- left. exists (S k). by rewrite Nat.add_succ_r.
        -- right. split; [done|]. destruct Hno as [->|Hno]; [by left|].
           right. intros [|k] Hk.
           ++ rewrite Nat.add_0_r, Hidx. congruence.
           ++ rewrite Nat.add_succ_r. apply Hno. simpl in Hk. lia.
      * intros [(k & Hk & Hc & Hne) | [Hacc Hno]].
        -- destruct k as [|k].
           ++ rewrite Nat.add_0_r, Hidx in Hc. congruence.
           ++ left. exists k. by rewrite Nat.add_succ_r in Hc.
        -- right. split; [done|]. destruct Hno as [->|Hno]; [by left|].
           right. intros k Hk. specialize (Hno (S k)).
           rewrite Nat.add_succ_r in Hno. apply Hno. simpl. lia.
Qed.

Lemma build_row_lookup row rec h v :
  build_row cols row = Ok rec →
  rec !! h = Some v ↔
  ∃ i, cols !! i = Some h ∧ h ≠ "" ∧ row !! i = Some v.
Proof.
  intros Hrun. rewrite (build_row_from_lookup _ _ _ _ Hrun). split.
  - intros [(k & Hk & Hc & Hne) | [Hacc _]]; [eauto|].
    by rewrite lookup_empty in Hacc.
  - intros (i & Hc & Hne & Hi). left. eauto.
Qed.
End build_row_unique.

(** ** One iteration, by branch *)

Lemma read_target_default t row :
  read_target t row = Ok (default (CStr "") (row !! target_index t)).
Proof.
  unfold read_target, getitem.
  destruct (Nat.ltb_spec (target_index t) (length row)) as [Hlt|Hge].
  - apply lookup_lt_is_Some in Hlt as [c ->]. done.
  - apply lookup_ge_None in Hge as ->. done.
Qed.

Lemma loop_body_inactive st row :
  table_detected st = false →
  loop_body st row =
  match scan_trigger 0 row with
  | Some index =>
      Ok (mkState true (Some (mkTable (extract_columns row) [] index))
            (extracted_tables st))
  | None => Ok st
  end.
Proof. intros H. unfold loop_body. by rewrite H. Qed.

Lemma loop_body_active st t row :
  table_detected st = true →
  curr_table st = Some t →
  loop_body st row =
  match default (CStr "") (row !! target_index t) with
  | CStr s =>
      if any_in accept_literals s then
        curr_row ← build_row (columns t) row;
        Ok (mkState true
              (Some (mkTable (columns t) (rows t ++ [curr_row]) (target_index t)))
              (extracted_tables st))
      else if any_in reject_literals s then Ok st
      else Ok (mkState false None (extracted_tables st ++ [t]))
  | _ => Ok st
  end.
Proof.
  intros Hd Hc. unfold loop_body. rewrite Hd, Hc. simpl.
  rewrite read_target_default. done.
Qed.

(** ** Reachable states *)

Lemma table_ok_mono seen seen' t :
  seen ⊆ seen' → table_ok seen t → table_ok seen' t.
Proof.
  intros Hsub [(trow & Hin & Hcols & Htrig) Hrecs]. split.
  - exists trow. auto.
  - intros rec Hrec. destruct (Hrecs rec Hrec) as (row & s & Hrow & H).
    exists row, s. auto.
Qed.

Lemma state_ok_init : state_ok [] init_state.
Proof.
  split; [|split]; simpl.
  - split; [done | by intros [? ?]].
  - intros t Ht. by apply elem_of_nil in Ht.
  - done.
Qed.

Lemma loop_body_ok seen st row :
  state_ok seen st →
  ∃ st', loop_body st row = Ok st' ∧ state_ok (seen ++ [row]) st'.
Proof.
  intros (Hcons & Hext & Hcur).
  assert (seen ⊆ seen ++ [row]) as Hsub by (intros x Hx; apply elem_of_app; auto).
  assert (row ∈ seen ++ [row]) as Hrow by (apply elem_of_app; right; left).
  assert (state_ok (seen ++ [row]) st) as Hsame.
  { split; [done|]. split; intros t Ht; eapply table_ok_mono; eauto. }
  destruct (table_detected st) eqn:Hd.
  - destruct Hcons as [Hcons _]. destruct (Hcons Hd) as [t Ht].
    rewrite (loop_body_active st t row Hd Ht).
    destruct (default (CStr "") (row !! target_index t)) as [|s|n] eqn:Htv;
      [eauto| |eauto].
    destruct (any_in accept_literals s) eqn:Hacc;
      [|destruct (any_in reject_literals s); [eauto|]].
    + destruct (build_row_total (columns t) row) as [rec Hrec].
      rewrite Hrec. simpl. eexists. split; [done|].
      split; [|split]; simpl.
      * split; [eauto | done].
      * intros t' Ht'. eapply table_ok_mono; eauto.
      * intros t' [= <-]. destruct (Hcur t Ht) as [Hhdr Hrecs].
        split; simpl.
        -- destruct Hhdr as (trow & ? & ? & ?). exists trow. auto.
        -- intros rec' [Hold | ->%list_elem_of_singleton]%elem_of_app.
           ++ destruct (Hrecs rec' Hold) as (r & s' & ? & ?).
              exists r, s'. auto.
           ++ exists row, s. split; [done|]. split; [done|]. split; [|done].
              simpl. destruct (row !! target_index t) as [c|]; simpl in Htv.
              ** by subst c.
              ** injection Htv as <-. discriminate.
    + eexists. split; [done|]. split; [|split]; simpl.
      * split; [done | by intros [? ?]].
      * intros t' [Hold | ->%list_elem_of_singleton]%elem_of_app;
          eapply table_ok_mono; eauto.
      * done.
  - rewrite (loop_body_inactive st row Hd).
    destruct (scan_trigger 0 row) as [index|] eqn:Hscan; [|eauto].
    eexists. split; [done|]. split; [|split]; simpl.
    + split; [eauto | done].
    + intros t Ht. eapply table_ok_mono; eauto.
    + intros t [= <-]. split; simpl.
      * exists row. auto.
      * intros rec Hrec. by apply elem_of_nil in Hrec.
Qed.

Lemma run_loop_ok rws : ∀ seen st,
  state_ok seen st →
  ∃ st', run_loop st rws = Ok st' ∧ state_ok (seen ++ rws) st'.
Proof.
  induction rws as [|row rest IH]; intros seen st Hok; simpl.
  - exists st. by rewrite app_nil_r.
  - destruct (loop_body_ok seen st row Hok) as (st1 & -> & Hok1). simpl.
    destruct (IH _ _ Hok1) as (st' & Hrun & Hok').
    exists st'. split; [done|]. by rewrite <- app_assoc in Hok'.
Qed.

Lemma run_loop_init_ok rws :
  ∃ st, run_loop init_state rws = Ok st ∧ state_ok rws st.
Proof. apply (run_loop_ok rws [] init_state state_ok_init). Qed.

Lemma reachable_ok rws st :
  run_loop init_state rws = Ok st → state_ok rws st.
Proof.
  intros H. destruct (run_loop_init_ok rws) as (st' & H' & Hok). congruence.
Qed.

Lemma process_rows_total rws : ∃ ts, process_rows rws = Ok ts.
Proof.
  destruct (run_loop_init_ok rws) as (st & Hrun & _).
  exists (flush st). unfold process_rows. by rewrite Hrun.
Qed.

Lemma process_extracted_table_total df :
  ∃ ts, process_extracted_table df = Ok ts.
Proof. apply process_rows_total. Qed.

Lemma first_trigger_scan row i :
  scan_trigger 0 row = Some i ↔ first_trigger row i.
Proof.
  rewrite scan_trigger_Some. unfold first_trigger, trigger_text. split.
  - intros (k & -> & (c & Hc & Ht) & Hlt). simpl. split.
    + exists c. split; [done|]. by apply is_trigger_cell_spec.
    + intros j c' Hj Hc' Ht'%is_trigger_cell_spec.
      rewrite (Hlt j c' Hj Hc') in Ht'. done.
  - intros [(c & Hc & Ht) Hlt]. exists i. split; [done|]. split.
    + exists c. split; [done|]. by apply is_trigger_cell_spec.
    + intros j c' Hj Hc'. destruct (is_trigger_cell c') eqn:Ht'; [|done].
      apply is_trigger_cell_spec in Ht'. by destruct (Hlt j c' Hj Hc').
Qed.

Lemma trigger_header_recorded row index :
  scan_trigger 0 row = Some index →
  ∃ h, extract_columns row !! index = Some h ∧ h ≠ "" ∧
       row !! index = Some (CStr h).
Proof.
  intros [(c & Hc & s & -> & Hs) Hlt]%first_trigger_scan.
  exists s. split; [|split]; [|by eapply replace_space_trigger_nonempty|done].
  apply extract_columns_lookup. split; [done|].
  intros j Hj Hdup. apply (Hlt j _ Hj Hdup). by exists s.
Qed.

Lemma flush_table_ok rws st t :
  state_ok rws st → t ∈ flush st → table_ok rws t.
Proof.
  intros (_ & Hext & Hcur). unfold flush.
  destruct (curr_table st) as [t0|]; [|apply Hext].
  intros [Hin | ->%list_elem_of_singleton]%elem_of_app; auto.
Qed.

(** * The claims *)

(** C1, as the code has it: when the target value of a row read in the
    active state is a text that matches neither the accept nor the reject
    literals, the current table is closed and emitted and the state becomes
    inactive; the loop then goes on with the next row, whatever the cells of
    the terminating row are (it is not scanned for a trigger). *)
Theorem terminate_closes_without_rescan st t row s :
  table_detected st = true →
  curr_table st = Some t →
  read_target t row = Ok (CStr s) →
  any_in accept_literals s = false →
  any_in reject_literals s = false →
  loop_body st row = Ok (closed st t) ∧
  ∀ rest, run_loop st (row :: rest) = run_loop (closed st t) rest.
Proof.
  intros Hd Hc Hread Hacc Hrej.
  assert (loop_body st row = Ok (closed st t)) as Hstep.
  { rewrite (loop_body_active st t row Hd Hc).
    rewrite read_target_default in Hread. injection Hread as ->.
    by rewrite Hacc, Hrej. }
  split; [done|]. intros rest. simpl. by rewrite Hstep.
Qed.

Lemma terminate_closes_without_rescan_witness :
  loop_body state_rescan row_rescan = Ok (closed state_rescan table_rescan) ∧
  ∀ rest, run_loop state_rescan (row_rescan :: rest) =
          run_loop (closed state_rescan table_rescan) rest.
Proof.
  apply (terminate_closes_without_rescan
           state_rescan table_rescan row_rescan "보류"); reflexivity.
Defined.

(** C1, as stated, fails: the second row of [frame_rescan] ends the table
    and holds a trigger cell at column 2; re-processing it would start a
    table there, the code leaves the state inactive and the third row is
    lost with it. *)
Lemma rescan_counterexample :
  run_loop init_state (take 1 (itertuples frame_rescan)) = Ok state_rescan ∧
  itertuples frame_rescan !! 1 = Some row_rescan ∧
  read_target table_rescan row_rescan = Ok (CStr "보류") ∧
  any_in accept_literals "보류" = false ∧
  any_in reject_literals "보류" = false ∧
  scan_trigger 0 row_rescan = Some 2 ∧
  spec_terminate_rescan state_rescan table_rescan row_rescan =
    Ok (started (closed state_rescan table_rescan) row_rescan 2) ∧
  loop_body state_rescan row_rescan ≠
    spec_terminate_rescan state_rescan table_rescan row_rescan ∧
  process_extracted_table frame_rescan = Ok [table_rescan].
Proof.
  repeat split; try (vm_compute; reflexivity).
  intros H.
  apply (f_equal (λ r, match r with
                       | Ok st => table_detected st
                       | Raise _ => false
                       end)) in H.
  vm_compute in H. discriminate.
Qed.

(** C2, as the code has it: when the target value of a row read in the
    active state is not text, the row is skipped: the state is unchanged,
    the table stays active and nothing is emitted. *)
Theorem nontext_target_keeps_state st t row v :
  table_detected st = true →
  curr_table st = Some t →
  read_target t row = Ok v →
  isinstance_str v = false →
  loop_body st row = Ok st.
Proof.
  intros Hd Hc Hread Hv. rewrite (loop_body_active st t row Hd Hc).
  rewrite read_target_default in Hread. injection Hread as ->.
  by destruct v.
Qed.

Lemma nontext_target_keeps_state_witness :
  loop_body state_numeric row_numeric = Ok state_numeric.
Proof.
  apply (nontext_target_keeps_state
           state_numeric table_numeric row_numeric (CNum 5)); reflexivity.
Defined.

(** C2, as stated, fails: the number 5 in the target column of the second
    row of [frame_numeric] does not close the table; the third row is still
    accepted into it. *)
Lemma nontext_counterexample :
  run_loop init_state (take 1 (itertuples frame_numeric)) = Ok state_numeric ∧
  itertuples frame_numeric !! 1 = Some row_numeric ∧
  read_target table_numeric row_numeric = Ok (CNum 5) ∧
  loop_body state_numeric row_numeric ≠
    Ok (closed state_numeric table_numeric) ∧
  process_extracted_table frame_numeric = Ok [table_numeric_out].
Proof.
  repeat split; try (vm_compute; reflexivity).
  intros H.
  apply (f_equal (λ r, match r with
                       | Ok st => table_detected st
                       | Raise _ => false
                       end)) in H.
  vm_compute in H. discriminate.
Qed.

(** C3, as the code has it: on the rows of Scenario A the output is exactly
    one table with target index 1 and columns {0:"", 1:"적합여부", 3:"비고"};
    its first row record is {"적합여부":"적합", "비고":"ok"}, it holds no record
    of the "보류" row, and it is closed at that row. *)
Theorem scenarioA_output :
  ∃ t st,
    process_rows scenarioA = Ok [t] ∧
    target_index t = 1 ∧
    columns t = columnsA ∧
    rows t !! 0 = Some recordX ∧
    (recordZ ∉ rows t) ∧
    run_loop init_state (take 3 scenarioA) = Ok st ∧
    table_detected st = true ∧
    curr_table st = Some t ∧
    extracted_tables st = [] ∧
    (∃ row, scenarioA !! 3 = Some row ∧ loop_body st row = Ok (closed st t)).
Proof.
  set (t := mkTable columnsA
              [recordX; {[ "적합여부" := CStr "미반영"; "비고" := CStr "n/a" ]}] 1).
  exists t, (mkState true (Some t) []).
  repeat split; try (vm_compute; reflexivity).
  - intros Hin. apply list_elem_of_lookup in Hin as [i Hi].
    destruct i as [|[|i]]; simpl in Hi; [| |done];
      apply (f_equal (λ o : option (gmap string cell),
                        o ≫= (λ m, m !! "적합여부"))) in Hi;
      vm_compute in Hi; discriminate.
  - eexists. split; [reflexivity|]. vm_compute. reflexivity.
Qed.

(** C3, as stated, fails: the table computed for Scenario A is not the
    expected one, neither on the rows taken as the tuples of the loop nor on
    the frame that holds them. *)
Lemma scenarioA_counterexample :
  process_rows scenarioA ≠ Ok [expectedA] ∧
  process_extracted_table (range_frame scenarioA) ≠ Ok [expectedA].
Proof.
  split; intros H;
    apply (f_equal (λ r, match r with
                         | Ok [t] => length (rows t)
                         | _ => 0
                         end)) in H;
    vm_compute in H; discriminate.
Qed.

(** C4, as the code has it: for every row accepted while a table is active,
    the appended row record has an entry header → value for every cell
    whose column index is a key of the table's ColumnMap with a non-empty
    header name (the target column included), and no other entry. *)
Theorem accepted_row_record rws st t row s :
  run_loop init_state rws = Ok st →
  table_detected st = true →
  curr_table st = Some t →
  read_target t row = Ok (CStr s) →
  any_in accept_literals s = true →
  ∃ rec,
    loop_body st row = Ok (appended st t rec) ∧
    ∀ h v, rec !! h = Some v ↔
           ∃ i, columns t !! i = Some h ∧ h ≠ "" ∧ row !! i = Some v.
Proof.
  intros Hrun Hd Hc Hread Hacc.
  destruct (build_row_total (columns t) row) as [rec Hrec]. exists rec.
  split.
  - rewrite (loop_body_active st t row Hd Hc).
    rewrite read_target_default in Hread. injection Hread as ->.
    by rewrite Hacc, Hrec.
  - intros h v. apply build_row_lookup; [|done].
    apply reachable_ok in Hrun as (_ & _ & Hcur).
    destruct (Hcur t Hc) as [(trow & _ & -> & _) _].
    apply extract_columns_inj.
Qed.

Lemma accepted_row_record_witness :
  ∃ rec,
    loop_body state_blank row_blank = Ok (appended state_blank table_blank rec) ∧
    ∀ h v, rec !! h = Some v ↔
           ∃ i, columns table_blank !! i = Some h ∧ h ≠ "" ∧
                row_blank !! i = Some v.
Proof.
  apply (accepted_row_record (take 1 (itertuples frame_blank))
           state_blank table_blank row_blank "적합"); reflexivity.
Defined.

(** C4, as stated, fails: in [frame_blank] column 1 is a key of the
    ColumnMap (its header is the empty text) and the accepted row has the
    cell "X" there, but the appended record has no entry for it. *)
Lemma accepted_row_record_counterexample :
  run_loop init_state (take 1 (itertuples frame_blank)) = Ok state_blank ∧
  itertuples frame_blank !! 1 = Some row_blank ∧
  loop_body state_blank row_blank =
    Ok (appended state_blank table_blank record_blank) ∧
  ¬ projects_all_keys (columns table_blank) row_blank record_blank.
Proof.
  repeat split; try (vm_compute; reflexivity).
  intros H. destruct (H "" (CStr "X")) as [_ H'].
  assert (record_blank !! "" = Some (CStr "X")) as Hl.
  { apply H'. exists 1. split; reflexivity. }
  vm_compute in Hl. discriminate.
Qed.

(** C5, as the code has it: in the inactive state a row starts a table
    exactly at the first column holding a text that, after removing its
    U+0020 space characters, equals "반영여부" or "적합여부"; a row without
    such a cell leaves the state unchanged; "반영 여부" is recognized like
    "반영여부". *)
Theorem trigger_detection st row :
  table_detected st = false →
  (∀ i, loop_body st row = Ok (started st row i) ↔ first_trigger row i) ∧
  ((∀ i, ¬ first_trigger row i) → loop_body st row = Ok st) ∧
  is_trigger_cell (CStr "반영 여부") = true ∧
  is_trigger_cell (CStr "반영여부") = true.
Proof.
  intros Hd. rewrite (loop_body_inactive st row Hd).
  split; [|split; [|done]].
  - intros i. rewrite <- first_trigger_scan.
    destruct (scan_trigger 0 row) as [index|].
    + split; [intros [= ->]; done | intros [= ->]; done].
    + split; [|done]. intros [= H]. unfold started in H.
      rewrite H in Hd. done.
  - intros Hno. destruct (scan_trigger 0 row) as [index|] eqn:Hscan; [|done].
    apply first_trigger_scan in Hscan. by destruct (Hno index).
Qed.

Lemma trigger_detection_witness :
  first_trigger [CNum 0; CStr "x"; CStr "반영 여부"; CStr "적합여부"] 2.
Proof.
  apply (proj1 (trigger_detection init_state
                  [CNum 0; CStr "x"; CStr "반영 여부"; CStr "적합여부"]
                  eq_refl) 2).
  reflexivity.
Defined.

(** C5, as stated, fails: a text with a tab between "반영" and "여부" equals
    a trigger literal once all whitespace is removed, but the code does not
    take it for a trigger and finds no table in [frame_tabbed]. *)
Lemma trigger_whitespace_counterexample :
  spec_trigger_cell tabbed_trigger = true ∧
  is_trigger_cell tabbed_trigger = false ∧
  process_extracted_table frame_tabbed = Ok [].
Proof. repeat split; vm_compute; reflexivity. Qed.

(** C6: when the target value read in the active state is a text that
    contains an accept literal and a reject literal, the row is kept: its
    row record is appended to the active table, which stays active. *)
Theorem accept_before_reject st t row s a r :
  table_detected st = true →
  curr_table st = Some t →
  read_target t row = Ok (CStr s) →
  a ∈ accept_literals → str_contains a s = true →
  r ∈ reject_literals → str_contains r s = true →
  ∃ rec,
    build_row (columns t) row = Ok rec ∧
    loop_body st row = Ok (appended st t rec).
Proof.
  intros Hd Hc Hread Ha Has _ _.
  destruct (build_row_total (columns t) row) as [rec Hrec]. exists rec.
  split; [done|].
  rewrite (loop_body_active st t row Hd Hc).
  rewrite read_target_default in Hread. injection Hread as ->.
  assert (any_in accept_literals s = true) as ->
    by (apply any_in_spec; eauto).
  by rewrite Hrec.
Qed.

Lemma accept_before_reject_witness :
  ∃ rec,
    build_row (columns table_rescan) [CNum 1; CStr "미반영"; CStr "y"] = Ok rec ∧
    loop_body state_rescan [CNum 1; CStr "미반영"; CStr "y"] =
      Ok (appended state_rescan table_rescan rec).
Proof.
  apply (accept_before_reject state_rescan table_rescan
           [CNum 1; CStr "미반영"; CStr "y"] "미반영" "반영" "미반영");
    try reflexivity; left.
Defined.

(** C7: the ColumnMap built from a row maps a column index to a text
    exactly when the cell at that index is this text and no cell at a
    smaller index is the same text; non-text cells and repeated texts give
    no entry, and no header name occurs at two indices. *)
Theorem extract_columns_first_occurrence row :
  (∀ i s, extract_columns row !! i = Some s ↔
          row !! i = Some (CStr s) ∧
          ∀ j, j < i → row !! j ≠ Some (CStr s)) ∧
  (∀ i j s, extract_columns row !! i = Some s →
            extract_columns row !! j = Some s → i = j).
Proof.
  split.
  - intros i s. apply extract_columns_lookup.
  - intros i j s. apply extract_columns_inj.
Qed.

Lemma extract_columns_first_occurrence_witness :
  extract_columns row_repeated !! 1 = Some "구분" ∧
  ∀ j, extract_columns row_repeated !! j = Some "구분" → 1 = j.
Proof.
  destruct (extract_columns_first_occurrence row_repeated) as [_ Hinj].
  split; [reflexivity|]. intros j. apply Hinj. reflexivity.
Defined.

(** C8: the output is the tables closed during the loop followed, when a
    table is still active after the last row, by that table, once; when no
    table is active nothing is added.  A trigger row read last in the
    inactive state adds one table with no rows. *)
Theorem flush_at_end rws st :
  run_loop init_state rws = Ok st →
  process_rows rws = Ok (extracted_tables st ++ option_list (curr_table st)) ∧
  (table_detected st = true ↔ is_Some (curr_table st)) ∧
  (table_detected st = false → process_rows rws = Ok (extracted_tables st)) ∧
  (∀ t, table_detected st = true → curr_table st = Some t →
        process_rows rws = Ok (extracted_tables st ++ [t])) ∧
  (∀ row index, table_detected st = false →
                scan_trigger 0 row = Some index →
                process_rows (rws ++ [row]) =
                Ok (extracted_tables st ++
                    [mkTable (extract_columns row) [] index])).
Proof.
  intros Hrun. pose proof (reachable_ok _ _ Hrun) as (Hcons & _ & _).
  assert (process_rows rws =
          Ok (extracted_tables st ++ option_list (curr_table st))) as Hout.
  { unfold process_rows. rewrite Hrun. simpl. unfold flush.
    destruct (curr_table st); simpl; [done | by rewrite app_nil_r]. }
  split; [done|]. split; [done|]. split; [|split].
  - intros Hd. rewrite Hout. destruct (curr_table st) as [t|] eqn:Hc.
    + destruct Hcons as [_ Hcons]. rewrite Hcons in Hd; [done | eauto].
    + simpl. by rewrite app_nil_r.
  - intros t _ Hc. by rewrite Hout, Hc.
  - intros row index Hd Hscan. unfold process_rows.
    rewrite run_loop_snoc, Hrun. simpl.
    rewrite (loop_body_inactive st row Hd), Hscan. done.
Qed.

Lemma flush_at_end_witness :
  process_rows [[CNum 0; CStr "적합여부"]] =
  Ok [mkTable (extract_columns [CNum 0; CStr "적합여부"]) [] 1].
Proof.
  apply (proj2 (proj2 (proj2 (proj2 (flush_at_end [] init_state eq_refl))))
           [CNum 0; CStr "적합여부"] 1); reflexivity.
Defined.

(** C9: the function raises on no input.  The target cell of a row is read
    only inside the row; for a row shorter than [target_index + 1] the value
    read is the empty text.  From every reachable state the loop body
    returns a state for every row. *)
Theorem no_fault rws :
  (∃ ts, process_rows rws = Ok ts) ∧
  (∀ st row, run_loop init_state rws = Ok st →
             ∃ st', loop_body st row = Ok st') ∧
  (∀ t row, read_target t row = Ok (default (CStr "") (row !! target_index t))) ∧
  (∀ t row, length row ≤ target_index t → read_target t row = Ok (CStr "")).
Proof.
  split; [|split; [|split]].
  - apply process_rows_total.
  - intros st row Hrun. apply reachable_ok in Hrun.
    destruct (loop_body_ok rws st row Hrun) as (st' & Hstep & _). eauto.
  - apply read_target_default.
  - intros t row Hlen. rewrite read_target_default.
    by rewrite (lookup_ge_None_2 row (target_index t) Hlen).
Qed.

Lemma no_fault_witness :
  read_target table_rescan [CNum 7] = Ok (CStr "").
Proof.
  apply (proj2 (proj2 (proj2 (no_fault []))) table_rescan [CNum 7]).
  simpl. lia.
Defined.

(** C10: for every table of the output, the target index is a key of its
    columns and the header stored there is a non-empty text; every row
    record of the table comes from a row of the input and holds, under that
    header, the cell of that row at the target index. *)
Theorem target_header_recorded rws ts t :
  process_rows rws = Ok ts →
  t ∈ ts →
  ∃ h,
    columns t !! target_index t = Some h ∧
    h ≠ "" ∧
    ∀ rec, rec ∈ rows t →
      ∃ row v, row ∈ rws ∧
               build_row (columns t) row = Ok rec ∧
               row !! target_index t = Some v ∧
               rec !! h = Some v.
Proof.
  unfold process_rows. intros (st & Hrun & [= <-])%bind_Ok_inv Hin.
  apply reachable_ok in Hrun.
  destruct (flush_table_ok rws st t Hrun Hin)
    as [(trow & _ & Hcols & Htrig) Hrecs].
  destruct (trigger_header_recorded trow _ Htrig) as (h & Hh & Hne & _).
  exists h. rewrite Hcols. split; [done|]. split; [done|].
  intros rec Hrec.
  destruct (Hrecs rec Hrec) as (row & s & Hrow & Hbuild & Hcell & _).
  exists row, (CStr s). rewrite <- Hcols. split; [done|]. split; [done|].
  split; [done|].
  eapply build_row_lookup; [|exact Hbuild|].
  - rewrite Hcols. apply extract_columns_inj.
  - exists (target_index t). by rewrite Hcols.
Qed.

Lemma target_header_recorded_witness :
  ∃ h,
    columns table_numeric_out !! target_index table_numeric_out = Some h ∧
    h ≠ "" ∧
    ∀ rec, rec ∈ rows table_numeric_out →
      ∃ row v, row ∈ itertuples frame_numeric ∧
               build_row (columns table_numeric_out) row = Ok rec ∧
               row !! target_index table_numeric_out = Some v ∧
               rec !! h = Some v.
Proof.
  apply (target_header_recorded (itertuples frame_numeric) [table_numeric_out]);
    [reflexivity | left].
Defined.

(** * Further properties of the segmentation *)

(** ** Auxiliary facts *)

Lemma append_assoc (s1 s2 s3 : string) :
  (s1 +:+ s2) +:+ s3 = s1 +:+ (s2 +:+ s3).
Proof.
  induction s1 as [|c s1 IH]; [done|].
  by rewrite !append_String, IH.
Qed.

Lemma str_contains_trans a b s :
  str_contains a b = true → str_contains b s = true →
  str_contains a s = true.
Proof.
  rewrite !str_contains_spec.
  intros (p1 & q1 & ->) (p2 & q2 & ->).
  exists (p2 +:+ p1), (q1 +:+ q2). by rewrite !append_assoc.
Qed.

Lemma any_in_accept_core s :
  any_in accept_literals s = any_in accept_core s.
Proof.
  apply eq_true_iff_eq. rewrite !any_in_spec. split.
  - intros (txt & Hin & Hc).
    unfold accept_literals in Hin. rewrite !elem_of_cons in Hin.
    destruct Hin as [->|[->|[->|[->|[->|Hin]]]]];
      [exists "반영" | exists "반영" | exists "권고" | exists "적합"
       | exists "적합" | by apply elem_of_nil in Hin].
    all: split; [unfold accept_core; rewrite !elem_of_cons; auto|].
    all: try done.
    all: eapply str_contains_trans; [|exact Hc]; reflexivity.
  - intros (txt & Hin & Hc). exists txt. split; [|done].
    unfold accept_core in Hin. rewrite !elem_of_cons in Hin.
    unfold accept_literals. rewrite !elem_of_cons.
    destruct Hin as [->|[->|[->|Hin]]];
      [auto 10..|by apply elem_of_nil in Hin].
Qed.

Lemma reject_after_accept s :
  any_in accept_literals s = false →
  any_in reject_literals s = any_in reject_core s.
Proof.
  intros Hacc. apply eq_true_iff_eq. rewrite !any_in_spec. split.
  - intros (txt & Hin & Hc).
    unfold reject_literals in Hin. rewrite !elem_of_cons in Hin.
    destruct Hin as [->|[->|[->|Hin]]].
    + assert (any_in accept_literals s = true); [|congruence].
      apply any_in_spec. exists "반영". split; [left|].
      eapply str_contains_trans; [|exact Hc]. reflexivity.
    + exists "해당없음". split; [left | done].
    + exists "해당사항 없음". split; [right; left | done].
    + by apply elem_of_nil in Hin.
  - intros (txt & Hin & Hc). exists txt. split; [|done].
    unfold reject_core in Hin. rewrite !elem_of_cons in Hin.
    unfold reject_literals. rewrite !elem_of_cons.
    destruct Hin as [->|[->|Hin]]; [auto 10..|by apply elem_of_nil in Hin].
Qed.

Lemma loop_body_classify st t row :
  table_detected st = true →
  curr_table st = Some t →
  loop_body st row =
  match classify (target_index t) row with
  | Keep => Ok (appended st t (record_of (columns t) row))
  | Skip => Ok st
  | Terminate => Ok (closed st t)
  end.
Proof.
  intros Hd Hc. rewrite (loop_body_active st t row Hd Hc).
  unfold classify, record_of.
  destruct (default (CStr "") (row !! target_index t)) as [|s|n]; [done| |done].
  destruct (any_in accept_literals s); [|by destruct (any_in reject_literals s)].
  by destruct (build_row_total (columns t) row) as [rec ->].
Qed.

Lemma trigger_free_scan row : scan_trigger 0 row = None ↔ trigger_free row.
Proof. apply scan_trigger_None. Qed.

Lemma loop_body_cases st row st' :
  loop_body st row = Ok st' →
  st' = st ∨
  (∃ index, st' = started st row index) ∨
  (∃ t rec, curr_table st = Some t ∧ st' = appended st t rec) ∨
  (∃ t, curr_table st = Some t ∧ st' = closed st t).
Proof.
  intros Hstep. destruct (table_detected st) eqn:Hd.
  - destruct (curr_table st) as [t|] eqn:Hc.
    + rewrite (loop_body_classify st t row Hd Hc) in Hstep.
      destruct (classify (target_index t) row); injection Hstep as <-; eauto 10.
    + unfold loop_body in Hstep. by rewrite Hd, Hc in Hstep.
  - rewrite (loop_body_inactive st row Hd) in Hstep.
    destruct (scan_trigger 0 row); injection Hstep as <-; eauto.
Qed.

Lemma productive_step st row st' :
  loop_body st row = Ok st' → productive st → productive st'.
Proof.
  unfold productive.
  intros [-> | [[i ->] | [(t & rec & Hc & ->) | (t & Hc & ->)]]]%loop_body_cases
    Hprod; simpl; eauto.
  left. by destruct (extracted_tables st).
Qed.

Lemma productive_run rws : ∀ st st',
  run_loop st rws = Ok st' → productive st → productive st'.
Proof.
  induction rws as [|row rest IH]; intros st st' Hrun Hprod; simpl in Hrun.
  - by injection Hrun as <-.
  - apply bind_Ok_inv in Hrun as (st1 & Hstep & Hrun).
    eauto using productive_step.
Qed.

Lemma flush_nil st : flush st = [] ↔ ¬ productive st.
Proof.
  unfold flush, productive. destruct (curr_table st) as [t|]; split.
  - intros H. by destruct (extracted_tables st).
  - intros H. destruct H. right. eauto.
  - intros -> [H | [? H]]; done.
  - intros H. destruct (extracted_tables st); [done|]. destruct H. by left.
Qed.

Lemma process_rows_nil_iff rws :
  process_rows rws = Ok [] ↔ ∀ row, row ∈ rws → trigger_free row.
Proof.
  unfold process_rows. split.
  - intros (st & Hrun & [= Hflush])%bind_Ok_inv.
    apply flush_nil in Hflush. clear -Hrun Hflush.
    induction rws as [|row rest IH]; [by intros ? ?%elem_of_nil|].
    simpl in Hrun. apply bind_Ok_inv in Hrun as (st1 & Hstep & Hrun).
    rewrite loop_body_inactive in Hstep by done.
    destruct (scan_trigger 0 row) as [index|] eqn:Hscan.
    + injection Hstep as <-. destruct Hflush.
      eapply productive_run; [exact Hrun|]. right. simpl. eauto.
    + injection Hstep as <-.
      intros r [->|Hr]%elem_of_cons; [by apply trigger_free_scan | auto].
  - intros Hfree. assert (run_loop init_state rws = Ok init_state) as ->; [|done].
    induction rws as [|row rest IH]; [done|]. simpl.
    rewrite loop_body_inactive by done.
    assert (scan_trigger 0 row = None) as ->
      by (apply trigger_free_scan, Hfree; left).
    simpl. apply IH. intros r Hr. apply Hfree. by right.
Qed.

(** X1: the output is empty exactly when no cell of any row is a trigger
    cell. *)
Theorem no_table_iff_no_trigger rws :
  process_rows rws = Ok [] ↔ ∀ row, row ∈ rws → trigger_free row.
Proof. apply process_rows_nil_iff. Qed.

Lemma no_table_iff_no_trigger_witness :
  process_rows [[CNum 0; CStr "구분"; CNone]; [CNum 1; CStr "적합"]] = Ok [].
Proof.
  apply (proj2 (no_table_iff_no_trigger
                  [[CNum 0; CStr "구분"; CNone]; [CNum 1; CStr "적합"]])).
  intros row Hrow c Hc.
  repeat (apply elem_of_cons in Hrow as [->|Hrow];
          [repeat (apply elem_of_cons in Hc as [->|Hc]; [reflexivity|]);
           by apply elem_of_nil in Hc|]).
  by apply elem_of_nil in Hrow.
Defined.

Lemma loop_body_shift pre st row :
  loop_body (shift pre st) row = (loop_body st row ≫= λ st', Ok (shift pre st')).
Proof.
  destruct (table_detected st) eqn:Hd.
  - destruct (curr_table st) as [t|] eqn:Hc.
    + rewrite (loop_body_classify (shift pre st) t row Hd Hc).
      rewrite (loop_body_classify st t row Hd Hc).
      destruct (classify (target_index t) row); simpl; [done..|].
      unfold closed, shift. simpl. by rewrite app_assoc.
    + unfold loop_body. simpl. by rewrite Hd, Hc.
  - rewrite (loop_body_inactive (shift pre st) row Hd).
    rewrite (loop_body_inactive st row Hd).
    by destruct (scan_trigger 0 row).
Qed.

Lemma run_loop_shift pre rws : ∀ st,
  run_loop (shift pre st) rws = (run_loop st rws ≫= λ st', Ok (shift pre st')).
Proof.
  induction rws as [|row rest IH]; intros st; simpl; [done|].
  rewrite loop_body_shift. destruct (loop_body st row) as [st1|e]; simpl; [|done].
  apply IH.
Qed.

Lemma flush_shift pre st : flush (shift pre st) = pre ++ flush st.
Proof.
  unfold flush, shift. simpl.
  destruct (curr_table st); [by rewrite app_assoc | done].
Qed.

(** X2: when the loop is inactive after the rows [rws1], the output for
    [rws1 ++ rws2] is the tables closed in [rws1] followed by the output for
    [rws2] alone. *)
Theorem output_of_concatenation rws1 rws2 st1 :
  run_loop init_state rws1 = Ok st1 →
  table_detected st1 = false →
  ∃ ts2,
    process_rows rws1 = Ok (extracted_tables st1) ∧
    process_rows rws2 = Ok ts2 ∧
    process_rows (rws1 ++ rws2) = Ok (extracted_tables st1 ++ ts2).
Proof.
  intros Hrun Hd. destruct (process_rows_total rws2) as [ts2 Hts2].
  exists ts2.
  pose proof (reachable_ok _ _ Hrun) as (Hcons & _ & _).
  assert (curr_table st1 = None) as Hc.
  { destruct (curr_table st1) eqn:Hc; [|done].
    destruct Hcons as [_ Hcons]. rewrite Hcons in Hd; [done | eauto]. }
  assert (run_loop st1 rws2 =
          (run_loop init_state rws2 ≫=
             λ st', Ok (shift (extracted_tables st1) st'))) as Hsh.
  { rewrite <- run_loop_shift. f_equal.
    destruct st1; simpl in *. subst. unfold shift. simpl. by rewrite app_nil_r. }
  split; [|split; [done|]].
  - unfold process_rows. rewrite Hrun. simpl. unfold flush. by rewrite Hc.
  - unfold process_rows in *. rewrite run_loop_app, Hrun. simpl.
    rewrite Hsh.
    destruct (run_loop init_state rws2) as [st2|e]; simpl in *; [|done].
    injection Hts2 as <-. by rewrite flush_shift.
Qed.

Lemma output_of_concatenation_witness :
  ∃ ts2,
    process_rows (take 2 (itertuples frame_rescan)) =
      Ok (extracted_tables (closed state_rescan table_rescan)) ∧
    process_rows (itertuples frame_numeric) = Ok ts2 ∧
    process_rows (take 2 (itertuples frame_rescan) ++ itertuples frame_numeric) =
      Ok (extracted_tables (closed state_rescan table_rescan) ++ ts2).
Proof.
  apply (output_of_concatenation (take 2 (itertuples frame_rescan))
           (itertuples frame_numeric) (closed state_rescan table_rescan));
    reflexivity.
Defined.

Lemma records_total_snoc ts t :
  records_total (ts ++ [t]) = records_total ts + length (rows t).
Proof.
  unfold records_total. rewrite map_app, sum_list_with_app. simpl. lia.
Qed.

Lemma weight_step st row st' :
  loop_body st row = Ok st' → weight st' ≤ weight st + 1.
Proof.
  unfold weight.
  intros [-> | [[i ->] | [(t & rec & Hc & ->) | (t & Hc & ->)]]]%loop_body_cases;
    simpl.
  - lia.
  - destruct (curr_table st); lia.
  - rewrite Hc, length_app. simpl. lia.
  - rewrite Hc, records_total_snoc, length_app. simpl. lia.
Qed.

Lemma weight_run rws : ∀ st st',
  run_loop st rws = Ok st' → weight st' ≤ weight st + length rws.
Proof.
  induction rws as [|row rest IH]; intros st st' Hrun; simpl in Hrun.
  - injection Hrun as <-. simpl. lia.
  - apply bind_Ok_inv in Hrun as (st1 & Hstep & Hrun).
    apply weight_step in Hstep. apply IH in Hrun. simpl. lia.
Qed.

(** X3: every table of the output uses up its trigger row, every table but
    the last a terminating row, and every row record a row of its own: the
    number of records plus twice the number of tables is at most the number
    of rows plus one. *)
Theorem output_size_bound rws ts :
  process_rows rws = Ok ts →
  records_total ts + 2 * length ts ≤ length rws + 1.
Proof.
  unfold process_rows. intros (st & Hrun & [= <-])%bind_Ok_inv.
  apply weight_run in Hrun. unfold weight in Hrun. simpl in Hrun.
  unfold flush. destruct (curr_table st) as [t|].
  - rewrite records_total_snoc, length_app. simpl. lia.
  - lia.
Qed.

Lemma output_size_bound_witness :
  records_total [table_numeric_out] + 2 * length [table_numeric_out] ≤
  length (itertuples frame_numeric) + 1.
Proof.
  apply (output_size_bound (itertuples frame_numeric) [table_numeric_out]).
  reflexivity.
Defined.

(** X4: in the active state a row whose target text contains "미반영" is
    kept, not skipped: "반영" occurs in it and the accept test comes first,
    so the reject literal "미반영" never decides. *)
Theorem mibanyeong_is_kept st t row s :
  table_detected st = true →
  curr_table st = Some t →
  read_target t row = Ok (CStr s) →
  str_contains "미반영" s = true →
  classify (target_index t) row = Keep ∧
  loop_body st row = Ok (appended st t (record_of (columns t) row)).
Proof.
  intros Hd Hc Hread Hs. rewrite read_target_default in Hread.
  injection Hread as Hread.
  assert (classify (target_index t) row = Keep) as Hk.
  { unfold classify. rewrite Hread.
    assert (any_in accept_literals s = true) as ->; [|done].
    apply any_in_spec. exists "반영". split; [left|].
    eapply str_contains_trans; [|exact Hs]. reflexivity. }
  split; [done|]. by rewrite (loop_body_classify st t row Hd Hc), Hk.
Qed.

Lemma mibanyeong_is_kept_witness :
  classify (target_index table_rescan) [CNum 1; CStr "일부 미반영"; CStr "y"] = Keep ∧
  loop_body state_rescan [CNum 1; CStr "일부 미반영"; CStr "y"] =
    Ok (appended state_rescan table_rescan
          (record_of (columns table_rescan)
             [CNum 1; CStr "일부 미반영"; CStr "y"])).
Proof.
  apply (mibanyeong_is_kept state_rescan table_rescan
           [CNum 1; CStr "일부 미반영"; CStr "y"] "일부 미반영"); reflexivity.
Defined.

(** X5: in the active state a row leaves the state unchanged exactly when
    its target value is not text, or is a text that contains none of "반영",
    "권고", "적합" and contains "해당없음" or "해당사항 없음". *)
Theorem row_skipped_iff st t row :
  table_detected st = true →
  curr_table st = Some t →
  loop_body st row = Ok st ↔
  ∀ s, default (CStr "") (row !! target_index t) = CStr s →
       any_in accept_core s = false ∧ any_in reject_core s = true.
Proof.
  intros Hd Hc. rewrite (loop_body_classify st t row Hd Hc). unfold classify.
  destruct (default (CStr "") (row !! target_index t)) as [|s|n];
    [split; [done | done]| |split; [done | done]].
  destruct (any_in accept_literals s) eqn:Hacc.
  - split.
    + intros [= H]. apply (f_equal curr_table) in H. simpl in H.
      rewrite Hc in H. injection H as H. apply (f_equal rows) in H.
      apply (f_equal length) in H. simpl in H. rewrite length_app in H.
      simpl in H. lia.
    + intros H. destruct (H s eq_refl) as [Ha _].
      rewrite <- any_in_accept_core in Ha. congruence.
  - destruct (any_in reject_literals s) eqn:Hrej.
    + split; [|done]. intros _ s' [= <-].
      split; [by rewrite <- any_in_accept_core|].
      by rewrite <- reject_after_accept.
    + split.
      * intros [= H]. apply (f_equal table_detected) in H. simpl in H.
        congruence.
      * intros H. destruct (H s eq_refl) as [_ Hr].
        rewrite <- reject_after_accept in Hr by done. congruence.
Qed.

Lemma row_skipped_iff_witness :
  loop_body state_rescan [CNum 1; CStr "해당사항 없음"] = Ok state_rescan.
Proof.
  apply (proj2 (row_skipped_iff state_rescan table_rescan
                  [CNum 1; CStr "해당사항 없음"] eq_refl eq_refl)).
  intros s [= <-]. split; reflexivity.
Defined.

(** X6: in the active state a row that has no cell at the target index, or
    an empty text there, closes the table. *)
Theorem short_row_closes st t row :
  table_detected st = true →
  curr_table st = Some t →
  length row ≤ target_index t ∨ row !! target_index t = Some (CStr "") →
  loop_body st row = Ok (closed st t).
Proof.
  intros Hd Hc Hrow. rewrite (loop_body_classify st t row Hd Hc).
  unfold classify.
  assert (default (CStr "") (row !! target_index t) = CStr "") as ->; [|done].
  destruct Hrow as [Hlen | ->]; [|done].
  by rewrite (lookup_ge_None_2 row (target_index t) Hlen).
Qed.

Lemma short_row_closes_witness :
  loop_body state_rescan [CNum 4] = Ok (closed state_rescan table_rescan).
Proof.
  apply (short_row_closes state_rescan table_rescan [CNum 4]);
    [reflexivity | reflexivity | left; simpl; lia].
Defined.

Lemma run_loop_body_kept cols index body : ∀ rows0 st,
  table_detected st = true →
  curr_table st = Some (mkTable cols rows0 index) →
  Forall (λ row, classify index row ≠ Terminate) body →
  run_loop st body =
  Ok (mkState true
        (Some (mkTable cols (rows0 ++ kept_records cols index body) index))
        (extracted_tables st)).
Proof.
  induction body as [|row body IH]; intros rows0 st Hd Hc Hbody.
  - simpl. rewrite app_nil_r. destruct st; simpl in *. by subst.
  - apply Forall_cons in Hbody as [Hrow Hbody]. simpl.
    rewrite (loop_body_classify st _ row Hd Hc). simpl.
    unfold kept_records. simpl. fold (kept_records cols index body).
    destruct (classify index row) eqn:Hcl; [| |done]; simpl.
    + rewrite (IH (rows0 ++ [record_of cols row])
                 (appended st (mkTable cols rows0 index) (record_of cols row))
                 eq_refl eq_refl Hbody).
      simpl. by rewrite <- app_assoc.
    + by apply IH.
Qed.

(** X7: a trigger row read in the inactive state, followed by rows that do
    not terminate and then by a terminating row, yields one table: its
    columns come from the trigger row, its records are those of the kept
    rows in their order; the rows after the terminating row are processed
    from the inactive state. *)
Theorem segment_closed row index body z post :
  scan_trigger 0 row = Some index →
  Forall (λ r, classify index r ≠ Terminate) body →
  classify index z = Terminate →
  process_rows (row :: body ++ z :: post) =
  (process_rows post ≫= λ ts,
     Ok (mkTable (extract_columns row)
           (kept_records (extract_columns row) index body) index :: ts)).
Proof.
  intros Hscan Hbody Hz. unfold process_rows. simpl.
  rewrite loop_body_inactive by done. rewrite Hscan. simpl.
  rewrite run_loop_app.
  rewrite (run_loop_body_kept (extract_columns row) index body []);
    [|done..]. simpl.
  set (t := mkTable _ _ _).
  rewrite (loop_body_classify (mkState true (Some t) []) t z eq_refl eq_refl).
  simpl. rewrite Hz. simpl.
  change (closed _ t) with (shift [t] init_state).
  rewrite run_loop_shift.
  destruct (run_loop init_state post) as [st|e]; simpl; [|done].
  by rewrite flush_shift.
Qed.

Lemma segment_closed_witness :
  process_rows ([CNum 0; CStr "적합 여부"; CStr "비고"] ::
                [[CNum 1; CStr "적합"; CStr "a"];
                 [CNum 2; CStr "해당없음"; CStr "b"];
                 [CNum 3; CStr "권고"; CStr "c"]] ++
                [CNum 4; CStr "합계"; CStr "d"] :: [[CNum 5; CStr "적합"]]) =
  (process_rows [[CNum 5; CStr "적합"]] ≫= λ ts,
     Ok (mkTable (extract_columns [CNum 0; CStr "적합 여부"; CStr "비고"])
           (kept_records (extract_columns [CNum 0; CStr "적합 여부"; CStr "비고"]) 1
              [[CNum 1; CStr "적합"; CStr "a"];
               [CNum 2; CStr "해당없음"; CStr "b"];
               [CNum 3; CStr "권고"; CStr "c"]]) 1 :: ts)).
Proof.
  apply (segment_closed [CNum 0; CStr "적합 여부"; CStr "비고"] 1); [reflexivity| |reflexivity].
  repeat constructor; discriminate.
Defined.

(** X8: a trigger row read in the inactive state and followed, up to the
    end of the input, by rows that do not terminate yields one table with
    the records of the kept rows in their order. *)
Theorem segment_flushed row index body :
  scan_trigger 0 row = Some index →
  Forall (λ r, classify index r ≠ Terminate) body →
  process_rows (row :: body) =
  Ok [mkTable (extract_columns row)
        (kept_records (extract_columns row) index body) index].
Proof.
  intros Hscan Hbody. unfold process_rows. simpl.
  rewrite loop_body_inactive by done. rewrite Hscan. simpl.
  rewrite (run_loop_body_kept (extract_columns row) index body []);
    [|done..].
  done.
Qed.

Lemma segment_flushed_witness :
  process_rows ([CNum 0; CStr "반영여부"] ::
                [[CNum 1; CStr "미반영"]; [CNum 2; CNone]; [CNum 3; CStr "반영"]]) =
  Ok [mkTable (extract_columns [CNum 0; CStr "반영여부"])
        (kept_records (extract_columns [CNum 0; CStr "반영여부"]) 1
           [[CNum 1; CStr "미반영"]; [CNum 2; CNone]; [CNum 3; CStr "반영"]]) 1].
Proof.
  apply (segment_flushed [CNum 0; CStr "반영여부"] 1); [reflexivity|].
  repeat constructor; discriminate.
Defined.

(** ** Further properties of [extract_columns] and of the row records *)

(** X9: the headers of a row are exactly the texts of its cells, and every
    key of the ColumnMap is an index of the row. *)
Theorem headers_are_the_texts row :
  (∀ s, CStr s ∈ row ↔ ∃ i, extract_columns row !! i = Some s) ∧
  (∀ i s, extract_columns row !! i = Some s → i < length row).
Proof.
  split.
  - intros s. split.
    + intros Hin.
      destruct (list_find_elem_of (λ c, c = CStr s) row (CStr s) Hin eq_refl)
        as [[i c] Hfind].
      apply list_find_Some in Hfind as (Hi & -> & Hfirst).
      exists i. apply extract_columns_lookup. split; [done|].
      intros j Hj Hdup. by apply (Hfirst j (CStr s) Hdup Hj).
    + intros [i [Hi _]%extract_columns_lookup].
      apply list_elem_of_lookup. eauto.
  - intros i s [Hi _]%extract_columns_lookup. by eapply lookup_lt_Some.
Qed.

Lemma headers_are_the_texts_witness :
  ∃ i, extract_columns row_repeated !! i = Some "비고".
Proof.
  apply (proj1 (headers_are_the_texts row_repeated)).
  apply list_elem_of_lookup. exists 5. reflexivity.
Defined.

(** X10: cells appended to a row leave the headers of the row as they are:
    at every index of the row the ColumnMap of the longer row agrees with
    the ColumnMap of the row. *)
Theorem extract_columns_app row more i :
  i < length row →
  extract_columns (row ++ more) !! i = extract_columns row !! i.
Proof.
  intros Hi. apply option_eq. intros s. rewrite !extract_columns_lookup.
  rewrite lookup_app_l by done. split; intros [Hc Hfirst]; (split; [done|]).
  - intros j Hj. specialize (Hfirst j Hj).
    by rewrite lookup_app_l in Hfirst by lia.
  - intros j Hj. rewrite lookup_app_l by lia. by apply Hfirst.
Qed.

Lemma extract_columns_app_witness :
  extract_columns ([CStr "구분"; CStr "적합여부"] ++ [CStr "구분"; CStr "비고"]) !! 0 =
  extract_columns [CStr "구분"; CStr "적합여부"] !! 0.
Proof.
  apply (extract_columns_app [CStr "구분"; CStr "적합여부"]
           [CStr "구분"; CStr "비고"] 0).
  simpl. lia.
Defined.

Lemma build_row_from_keys cols items : ∀ idx acc rec,
  build_row_from cols idx items acc = Ok rec →
  (∀ h, is_Some (rec !! h) ↔
        is_Some (acc !! h) ∨
        (h ≠ "" ∧ ∃ k, k < length items ∧ cols !! (idx + k) = Some h)) ∧
  size rec ≤ size acc + length items.
Proof.
  induction items as [|item rest IH]; intros idx acc rec Hrun; simpl in Hrun.
  - injection Hrun as <-. split; [|simpl; lia]. intros h. split; [by left|].
    intros [H | (_ & k & Hk & _)]; [done | simpl in Hk; lia].
  - assert (∀ h, (h ≠ "" ∧ ∃ k, k < length (item :: rest) ∧
                                cols !! (idx + k) = Some h) ↔
                 (h ≠ "" ∧ cols !! idx = Some h) ∨
                 (h ≠ "" ∧ ∃ k, k < length rest ∧
                                cols !! (S idx + k) = Some h)) as Hsplit.
    { intros h. split.
      - intros (Hne & [|k] & Hk & Hc).
        + left. by rewrite Nat.add_0_r in Hc.
        + right. split; [done|]. exists k. simpl in Hk.
          rewrite Nat.add_succ_r in Hc. split; [lia | done].
      - intros [[Hne Hc] | (Hne & k & Hk & Hc)]; (split; [done|]).
        + exists 0. rewrite Nat.add_0_r. split; [simpl; lia | done].
        + exists (S k). rewrite Nat.add_succ_r. split; [simpl; lia | done]. }
    unfold truthy_get, dict_getitem in Hrun.
    destruct (cols !! idx) as [h0|] eqn:Hidx;
      [destruct (String.eqb_spec h0 "") as [->|Hne0]|]; simpl in Hrun;
      apply IH in Hrun as [Hkeys Hsize].
    + split; [|simpl; lia]. intros h. rewrite Hkeys, Hsplit.
      split; [tauto|]. intros [H | [[Hne Hc] | H]]; [tauto| |tauto].
      congruence.
    + split.
      * intros h. rewrite Hkeys, Hsplit, lookup_insert_is_Some'. split.
        -- intros [[<- | H] | H]; [|tauto..]. right. left. done.
        -- intros [H | [[Hne [= ->]] | H]]; tauto.
      * pose proof (map_size_insert h0 item acc) as Hins.
        destruct (acc !! h0); simpl in *; lia.
    + split; [|simpl; lia]. intros h. rewrite Hkeys, Hsplit.
      split; [tauto|]. intros [H | [[Hne Hc] | H]]; [tauto|done|tauto].
Qed.

(** X11: for any ColumnMap and any row, building the row record raises no
    [KeyError]; the keys of the record are exactly the non-empty headers
    stored at an index of the row, so the record has at most as many entries
    as the row has cells. *)
Theorem build_row_keys cols row :
  build_row cols row = Ok (record_of cols row) ∧
  (∀ h, is_Some (record_of cols row !! h) ↔
        h ≠ "" ∧ ∃ i, i < length row ∧ cols !! i = Some h) ∧
  size (record_of cols row) ≤ length row.
Proof.
  unfold record_of. destruct (build_row_total cols row) as [rec Hrec].
  rewrite Hrec. split; [done|].
  apply build_row_from_keys in Hrec as [Hkeys Hsize]. split.
  - intros h. rewrite Hkeys, lookup_empty. split.
    + intros [[? H] | H]; done.
    + intros H. by right.
  - by rewrite map_size_empty in Hsize.
Qed.

Lemma build_row_keys_witness :
  is_Some (record_of (columns table_blank) row_blank !! "적합여부").
Proof.
  apply (proj1 (proj2 (build_row_keys (columns table_blank) row_blank))).
  split; [done|]. exists 2. split; [simpl; lia | reflexivity].
Defined.

(** X12: in every table of the output the header at the target index is a
    trigger text, and every row record holds under it a text that contains
    "반영", "권고" or "적합". *)
Theorem records_hold_accepted_text rws ts t :
  process_rows rws = Ok ts →
  t ∈ ts →
  ∃ h,
    columns t !! target_index t = Some h ∧
    replace_space h ∈ trigger_literals ∧
    ∀ rec, rec ∈ rows t →
      ∃ s, rec !! h = Some (CStr s) ∧ any_in accept_core s = true.
Proof.
  unfold process_rows. intros (st & Hrun & [= <-])%bind_Ok_inv Hin.
  apply reachable_ok in Hrun.
  destruct (flush_table_ok rws st t Hrun Hin)
    as [(trow & _ & Hcols & Htrig) Hrecs].
  destruct (trigger_header_recorded trow _ Htrig) as (h & Hh & Hne & Hcell).
  apply first_trigger_scan in Htrig as [(c & Hc & s0 & -> & Hs0) _].
  rewrite Hcell in Hc. injection Hc as <-.
  exists h. rewrite Hcols. split; [done|]. split; [done|].
  intros rec Hrec.
  destruct (Hrecs rec Hrec) as (row & s & _ & Hbuild & Hs & Hacc).
  exists s. split; [|by rewrite <- any_in_accept_core].
  eapply build_row_lookup; [|exact Hbuild|].
  - rewrite Hcols. apply extract_columns_inj.
  - exists (target_index t). by rewrite Hcols.
Qed.

Lemma records_hold_accepted_text_witness :
  ∃ h,
    columns table_numeric_out !! target_index table_numeric_out = Some h ∧
    replace_space h ∈ trigger_literals ∧
    ∀ rec, rec ∈ rows table_numeric_out →
      ∃ s, rec !! h = Some (CStr s) ∧ any_in accept_core s = true.
Proof.
  apply (records_hold_accepted_text (itertuples frame_numeric)
           [table_numeric_out]); [reflexivity | left].
Defined.

Lemma replace_space_app s1 s2 :
  replace_space (s1 +:+ s2) = replace_space s1 +:+ replace_space s2.
Proof.
  induction s1 as [|c s1 IH]; [done|].
  rewrite append_String. simpl. destruct (Ascii.eqb c Ascii.Space); [done|].
  by rewrite append_String, IH.
Qed.

Lemma is_trigger_cell_replace s :
  is_trigger_cell (CStr s) = str_in_list (replace_space s) trigger_literals.
Proof.
  unfold is_trigger_cell, truthy, isinstance_str.
  destruct (String.eqb_spec s "") as [->|Hne]; [done|].
  by rewrite andb_true_r.
Qed.

(** X13: a space character inserted anywhere in a text does not change
    whether the cell is a trigger. *)
Theorem trigger_ignores_spaces a b :
  is_trigger_cell (CStr (a +:+ " " +:+ b)) = is_trigger_cell (CStr (a +:+ b)).
Proof.
  by rewrite !is_trigger_cell_replace, !replace_space_app.
Qed.

(** * The page selection *)

Lemma split_on_length_pos sep s : 0 < length (split_on sep s).
Proof.
  induction s as [|c s IH]; simpl; [lia|].
  destruct (Ascii.eqb c sep); simpl; [lia|].
  destruct (split_on sep s); simpl; lia.
Qed.

Lemma concat_split_on sep s :
  String.concat (String sep "") (split_on sep s) = s.
Proof.
  induction s as [|c s IH]; [done|]. simpl.
  pose proof (split_on_length_pos sep s) as Hpos.
  destruct (Ascii.eqb_spec c sep) as [->|Hne].
  - destruct (split_on sep s) as [|p ps]; [simpl in Hpos; lia|].
    change (String.concat (String sep "") ("" :: p :: ps))
      with ("" +:+ String sep "" +:+ String.concat (String sep "") (p :: ps)).
    by rewrite IH.
  - destruct (split_on sep s) as [|p [|q qs]]; [simpl in Hpos; lia|..].
    + simpl in *. by rewrite IH.
    + change (String.concat (String sep "") (String c p :: q :: qs))
        with (String c p +:+ String sep "" +:+
              String.concat (String sep "") (q :: qs)).
      rewrite append_String. f_equal. exact IH.
Qed.

Lemma one_char_contains sep c s :
  str_contains (String sep "") (String c s) =
  if Ascii.eqb c sep then true else str_contains (String sep "") s.
Proof.
  rewrite str_contains_unfold. simpl.
  destruct (Ascii.ascii_dec sep c) as [->|Hne].
  - rewrite Ascii.eqb_refl. by destruct s.
  - destruct (Ascii.eqb_spec c sep); [congruence | done].
Qed.

Lemma split_on_absent sep s :
  str_contains (String sep "") s = false → split_on sep s = [s].
Proof.
  induction s as [|c s IH]; [done|].
  rewrite one_char_contains. simpl.
  destruct (Ascii.eqb c sep); [done|]. intros H. by rewrite (IH H).
Qed.

Lemma split_on_sep sep a b :
  str_contains (String sep "") a = false →
  split_on sep (a +:+ String sep b) = a :: split_on sep b.
Proof.
  induction a as [|c a IH].
  - intros _. rewrite append_empty. simpl. by rewrite Ascii.eqb_refl.
  - rewrite one_char_contains, append_String. simpl.
    destruct (Ascii.eqb c sep); [done|]. intros H. by rewrite (IH H).
Qed.

Lemma split_on_length_sep sep a b :
  length (split_on sep (a +:+ String sep b)) =
  length (split_on sep a) + length (split_on sep b).
Proof.
  induction a as [|c a IH].
  - rewrite append_empty. simpl. by rewrite Ascii.eqb_refl.
  - rewrite append_String. simpl. destruct (Ascii.eqb c sep); simpl; [lia|].
    pose proof (split_on_length_pos sep a).
    pose proof (split_on_length_pos sep (a +:+ String sep b)).
    destruct (split_on sep a), (split_on sep (a +:+ String sep b));
      simpl in *; lia.
Qed.

Lemma contains_sep sep a b :
  str_contains (String sep "") (a +:+ String sep b) = true.
Proof. apply str_contains_spec. by exists a, b. Qed.

Section page_selection.
Variable py_int : string → option Z.
Variable py_strip : string → string.

Lemma parse_parts_valid parts : ∀ pss pages,
  Forall2 (λ part ps, parse_part py_int py_strip part = Some ps) parts pss →
  ∀ rest,
    parse_parts py_int py_strip (parts ++ rest) pages =
    parse_parts py_int py_strip rest (pages ++ concat pss).
Proof.
  induction parts as [|part parts IH]; intros pss pages Hall rest.
  - apply Forall2_nil_inv_l in Hall as ->. simpl. by rewrite app_nil_r.
  - apply Forall2_cons_inv_l in Hall as (ps & pss' & Hps & Hall & ->).
    simpl. rewrite Hps, (IH _ _ Hall). by rewrite app_assoc.
Qed.

(** X14: when every part of the input is valid, the pages are those of the
    parts, in the order of the parts and with repetitions kept, and no
    error is shown. *)
Theorem pages_of_valid_parts parts pss :
  Forall2 (λ part ps, parse_part py_int py_strip part = Some ps) parts pss →
  parse_parts py_int py_strip parts [] = (concat pss, false).
Proof.
  intros Hall. pose proof (parse_parts_valid parts pss [] Hall []) as H.
  by rewrite app_nil_r in H.
Qed.

(** X15: at the first invalid part the error is shown, the pages of the
    parts before it are kept and the parts after it are not read. *)
Theorem pages_before_invalid_part good pss bad rest :
  Forall2 (λ part ps, parse_part py_int py_strip part = Some ps) good pss →
  parse_part py_int py_strip bad = None →
  parse_parts py_int py_strip (good ++ bad :: rest) [] = (concat pss, true).
Proof.
  intros Hall Hbad. rewrite (parse_parts_valid good pss [] Hall). simpl.
  by rewrite Hbad.
Qed.

Lemma parse_range_part a b x y :
  str_contains "-" a = false →
  str_contains "-" b = false →
  py_int a = Some x →
  py_int b = Some y →
  parse_part py_int py_strip (a +:+ "-" +:+ b) = Some (py_range x (y + 1)).
Proof.
  intros Ha Hb Hx Hy.
  unfold parse_part. change ("-" +:+ b) with (String dash b).
  rewrite contains_sep, (split_on_sep dash a b Ha).
  rewrite (split_on_absent dash b Hb). by rewrite Hx, Hy.
Qed.

Lemma py_range_reversed x y : (y < x)%Z → py_range x (y + 1) = [].
Proof.
  intros Hlt. unfold py_range, seqZ.
  by replace (Z.to_nat (y + 1 - x)) with 0 by lia.
Qed.

(** X16: a part [a-b] whose two sides hold no dash and are read by [int]
    as [x] and [y] adds exactly the pages from [x] to [y], in increasing
    order; it adds none when [y < x]. *)
Theorem range_part a b x y :
  str_contains "-" a = false →
  str_contains "-" b = false →
  py_int a = Some x →
  py_int b = Some y →
  parse_part py_int py_strip (a +:+ "-" +:+ b) = Some (py_range x (y + 1)) ∧
  (∀ z, z ∈ py_range x (y + 1) ↔ (x ≤ z ≤ y)%Z) ∧
  (∀ i z, py_range x (y + 1) !! i = Some z → z = (x + Z.of_nat i)%Z) ∧
  ((y < x)%Z → py_range x (y + 1) = []).
Proof.
  intros Ha Hb Hx Hy. split; [|split; [|split]].
  - by apply parse_range_part.
  - intros z. unfold py_range. rewrite elem_of_seqZ. lia.
  - intros i z Hi. unfold py_range in Hi.
    apply lookup_seqZ in Hi. lia.
  - apply py_range_reversed.
Qed.

(** X17: a part with two dashes is invalid, whatever stands around them;
    so is a part that [int] does not read after stripping. *)
Theorem invalid_parts :
  (∀ a b c, parse_part py_int py_strip (a +:+ "-" +:+ b +:+ "-" +:+ c) = None) ∧
  (∀ part, str_contains "-" part = false →
           py_int (py_strip part) = None →
           parse_part py_int py_strip part = None).
Proof.
  split.
  - intros a b c. unfold parse_part.
    change ("-" +:+ b +:+ "-" +:+ c) with (String dash (b +:+ String dash c)).
    rewrite contains_sep.
    pose proof (split_on_length_sep dash a (b +:+ String dash c)) as Hlen.
    rewrite (split_on_length_sep dash b c) in Hlen.
    pose proof (split_on_length_pos dash a).
    pose proof (split_on_length_pos dash b).
    pose proof (split_on_length_pos dash c).
    destruct (split_on dash (a +:+ String dash (b +:+ String dash c)))
      as [|p1 [|p2 [|p3 ps]]]; simpl in Hlen; try done; lia.
  - intros part Hdash Hint. unfold parse_part. by rewrite Hdash, Hint.
Qed.

(** X18: when the input is not empty and its first part is invalid, the
    error is shown and the page argument passed on is [None], which selects
    every page; the same argument results, without an error, from an input
    that is a single reversed range. *)
Theorem no_page_selects_all page_input :
  page_input ≠ "" →
  (∀ part rest, split_on comma page_input = part :: rest →
                parse_part py_int py_strip part = None →
                parse_pages py_int py_strip page_input = (Some [], true) ∧
                pages_argument (parse_pages py_int py_strip page_input).1 = None) ∧
  (∀ a b x y, page_input = a +:+ "-" +:+ b →
              str_contains "," page_input = false →
              str_contains "-" a = false → str_contains "-" b = false →
              py_int a = Some x → py_int b = Some y → (y < x)%Z →
              parse_pages py_int py_strip page_input = (Some [], false) ∧
              pages_argument (parse_pages py_int py_strip page_input).1 = None).
Proof.
  intros Hne. split.
  - intros part rest Hsplit Hbad.
    assert (parse_pages py_int py_strip page_input = (Some [], true)) as ->; [|done].
    unfold parse_pages. destruct page_input; [done|].
    rewrite Hsplit. simpl. by rewrite Hbad.
  - intros a b x y Hin Hcomma Ha Hb Hx Hy Hlt.
    assert (parse_pages py_int py_strip page_input = (Some [], false)) as ->; [|done].
    unfold parse_pages. destruct page_input as [|c0 s0]; [done|].
    rewrite (split_on_absent comma _ Hcomma). simpl.
    rewrite Hin, (parse_range_part a b x y Ha Hb Hx Hy).
    by rewrite (py_range_reversed x y Hlt).
Qed.

End page_selection.

Lemma pages_of_valid_parts_witness :
  parse_parts digits_int no_strip ["1"; "3-5"; "2"] [] =
  (concat [[1]; [3; 4; 5]; [2]]%Z, false).
Proof.
  apply (pages_of_valid_parts digits_int no_strip ["1"; "3-5"; "2"]).
  repeat constructor.
Defined.

Lemma pages_before_invalid_part_witness :
  parse_parts digits_int no_strip (["1"; "3-5"] ++ "x" :: ["7"]) [] =
  (concat [[1]; [3; 4; 5]]%Z, true).
Proof.
  apply (pages_before_invalid_part digits_int no_strip ["1"; "3-5"]);
    [repeat constructor | reflexivity].
Defined.

Lemma range_part_witness :
  parse_part digits_int no_strip ("3" +:+ "-" +:+ "5") = Some (py_range 3 (5 + 1)).
Proof.
  apply (range_part digits_int no_strip "3" "5" 3 5); reflexivity.
Defined.

Lemma invalid_parts_witness :
  parse_part digits_int no_strip "4.5" = None.
Proof.
  apply (proj2 (invalid_parts digits_int no_strip) "4.5"); reflexivity.
Defined.

Lemma no_page_selects_all_witness :
  parse_pages digits_int no_strip "5-1" = (Some [], false) ∧
  pages_argument (parse_pages digits_int no_strip "5-1").1 = None.
Proof.
  apply (proj2 (no_page_selects_all digits_int no_strip "5-1" ltac:(done))
           "5" "1" 5%Z 1%Z); reflexivity || lia.
Defined.

(** * The display of an extracted table *)



Lemma show_processed_head page_num idx pts : ∀ pt_idx w ws,
  show_processed page_num idx pt_idx pts = w :: ws →
  ∃ recs, w = Dataframe_records recs.
Proof.
  induction pts as [|pt pts IH]; intros pt_idx w ws; simpl; [done|].
  destruct (rows pt); [apply IH|]. intros [= <- _]. eauto.
Qed.

(** X19: with the filter on, the message that no table matches is shown,
    followed by the unfiltered frame, exactly when no cell of the frame or
    of its index is a trigger cell. *)
Theorem info_iff_no_trigger page_num idx df :
  show_table true page_num idx df = [Info_no_match; Dataframe_raw df] ↔
  ∀ row, row ∈ itertuples df → trigger_free row.
Proof.
  rewrite <- process_rows_nil_iff. unfold show_table, process_extracted_table.
  destruct (process_rows (itertuples df)) as [[|pt pts]|e] eqn:Hout.
  - done.
  - split; [|done]. intros H.
    by apply show_processed_head in H as [recs H].
  - done.
Qed.

Lemma info_iff_no_trigger_witness :
  show_table true 0 0 frame_tabbed = [Info_no_match; Dataframe_raw frame_tabbed].
Proof.
  apply (proj2 (info_iff_no_trigger 0 0 frame_tabbed)).
  intros row Hrow c Hc.
  apply elem_of_cons in Hrow as [->|Hrow]; [|by apply elem_of_nil in Hrow].
  repeat (apply elem_of_cons in Hc as [->|Hc]; [reflexivity|]).
  by apply elem_of_nil in Hc.
Defined.


